(** * Fine-tuning a pretrained LSTM language model for toxicity classification

    A shallow embedding of the notebook [fine-tuning-lstm.ipynb]: the
    mean-pooling head, the classifier network, the data pipeline
    (binarisation, preprocessing, padding, batching), the training-loop
    bookkeeping and the inference / submission loop, with the properties
    the specification states about them.

    Tensors are nested lists in the layout the notebook uses (time-major
    [(T, N, C)] for encoder features, batch-major [(N, T)] for padded token
    ids).  Scalars are abstract: the operator namespace [F] that every
    [hybrid_forward] receives is a type class, so each statement holds for
    every scalar type providing the operations, and is run on rationals in
    the examples. *)

From Stdlib Require Import ZArith QArith Qabs Qround Reals Lra Lia.
From stdpp Require Import base option list strings gmap.

Set Default Proof Using "Type".
Local Open Scope nat_scope.

(** ** The operator namespace

    [hybrid_forward(self, F, ...)] is written against the namespace [F]
    (imperative or symbolic MXNet).  The scalar operations the notebook
    reaches through it are collected here. *)
Class Backend (A : Type) := {
  f_zero : A;                 (* the fill value of SequenceMask, the unit of sum *)
  f_add : A → A → A;
  f_mul : A → A → A;
  f_div : A → A → A;
  f_is_zero : A → bool;       (* x == 0 *)
  f_int : A → Z;              (* static_cast<int>(x), how SequenceMask reads a length *)
  f_float : nat → A           (* .astype(np.float32) / float(...) of a length *)
}.

(** Rationals as a scalar type on which the model can be executed. *)
Definition Q_is_zero (x : Q) : bool := (Qnum x =? 0)%Z.
Definition Q_int (x : Q) : Z := (Qnum x ÷ Z.pos (Qden x))%Z.
Definition Q_float (n : nat) : Q := inject_Z (Z.of_nat n).

#[export] Instance Q_backend : Backend Q := {
  f_zero := 0%Q;
  f_add := Qplus;
  f_mul := Qmult;
  f_div := Qdiv;
  f_is_zero := Q_is_zero;
  f_int := Q_int;
  f_float := Q_float
}.

(** ** Tensor shapes *)
Section Shapes.
Context {A : Type}.

(** A matrix of shape [(N, C)]. *)
Definition has_shape2 (N C : nat) (m : list (list A)) : Prop :=
  length m = N ∧ Forall (λ r, length r = C) m.

(** A time-major tensor of shape [(T, N, C)]. *)
Definition has_shape3 (T N C : nat) (d : list (list (list A))) : Prop :=
  length d = T ∧ Forall (has_shape2 N C) d.

(** The features of sample [n] along the time axis: [data[:, n, :]]. *)
Definition sample_features (n : nat) (d : list (list (list A))) : list (list A) :=
  omap (λ row, row !! n) d.
End Shapes.

(** ** [MeanPoolingLayer] *)
Module MeanPoolingLayer.
Section Layer.
Context {A : Type} {F : Backend A}.

(** A vector of fill values of the width of [feat]. *)
Definition zeros_like (feat : list A) : list A := (λ _, f_zero) <$> feat.

(** [F.SequenceMask(data, sequence_length, use_sequence_length=True)] with
    the default [value=0] and [axis=0]: position [t] of sample [n] is kept
    when [t < int(sequence_length[n])] and overwritten by the fill value
    otherwise. *)
Definition SequenceMask (data : list (list (list A))) (sequence_length : list A)
  : list (list (list A)) :=
  imap (λ t row,
          zip_with (λ feat len,
                      if bool_decide (Z.of_nat t < f_int len)%Z then feat
                      else zeros_like feat)
                   row sequence_length)
       data.

(** [F.sum(x, axis=0)] on a [(T, N, C)] tensor: the time steps are added
    onto a zero matrix, in order. *)
Definition sum_axis0 (x : list (list (list A))) : list (list A) :=
  match x with
  | [] => []
  | row :: _ =>
      foldl (zip_with (zip_with f_add)) (zeros_like <$> row) x
  end.

(** [F.expand_dims(v, axis=1)]: shape [(N,)] becomes [(N, 1)]. *)
Definition expand_dims (v : list A) : list (list A) := (λ x, [x]) <$> v.

(** [F.broadcast_div(x, y)] on matrices with equal first dimension; a row of
    [y] of width one is broadcast along the row of [x]. *)
Definition broadcast_div (x y : list (list A)) : list (list A) :=
  zip_with (λ xr yr,
              match yr with
              | [d] => (λ a, f_div a d) <$> xr
              | _ => zip_with f_div xr yr
              end) x y.

Definition hybrid_forward (data : list (list (list A))) (valid_length : list A)
  : list (list A) :=
  let masked_encoded := SequenceMask data valid_length in
  let agg_state := broadcast_div (sum_axis0 masked_encoded)
                                 (expand_dims valid_length) in
  agg_state.

(** The same computation with the division instrumented: a zero divisor is
    reported instead of being handed to the scalar division. *)
Definition checked_div (a d : A) : option A :=
  if f_is_zero d then None else Some (f_div a d).

Definition div_row_checked (xr yr : list A) : option (list A) :=
  match yr with
  | [d] => mapM (λ a, checked_div a d) xr
  | _ => mapM (λ p : A * A, checked_div p.1 p.2) (zip xr yr)
  end.

Definition broadcast_div_checked (x y : list (list A)) : option (list (list A)) :=
  mapM (λ p : list A * list A, div_row_checked p.1 p.2) (zip x y).

Definition hybrid_forward_checked (data : list (list (list A))) (valid_length : list A)
  : option (list (list A)) :=
  let masked_encoded := SequenceMask data valid_length in
  broadcast_div_checked (sum_axis0 masked_encoded) (expand_dims valid_length).

(** What the specification asks of one sample: add the feature vectors of
    the time steps before the valid length, divide by the valid length. *)
Definition vsum (C : nat) (feats : list (list A)) : list A :=
  foldl (zip_with f_add) (replicate C f_zero) feats.

(** The mask as it acts on the features of one sample. *)
Definition mask_sample (len : A) (feats : list (list A)) : list (list A) :=
  imap (λ t feat, if bool_decide (Z.of_nat t < f_int len)%Z then feat
                  else zeros_like feat) feats.

Definition mean_of_prefix (C : nat) (feats : list (list A)) (len : A) : list A :=
  (λ s, f_div s len) <$> vsum C (take (Z.to_nat (f_int len)) feats).
End Layer.
End MeanPoolingLayer.

(** ** Data frames and label binarisation *)

(** A row of [train.csv] as the notebook reads it: the comment text, missing
    when the field is empty, and the continuous toxicity score, missing when
    it parses to NaN. *)
Record TrainCsvRow := {
  csv_comment_text : option string;
  csv_target : option Q
}.

(** A row of [test.csv]. *)
Record TestCsvRow := {
  id : Z;
  test_comment_text : option string
}.

(** [.astype(str)]: a missing value becomes the text [nan]. *)
Definition astype_str (x : option string) : string := default "nan"%string x.

(** [(train_df['target'] >= 0.5).astype(int)] on one score; a comparison
    with NaN is false. *)
Definition binarize_target (target : option Q) : Z :=
  match target with
  | Some score => if Qle_bool (1 # 2) score then 1%Z else 0%Z
  | None => 0%Z
  end.

(** [train_data_raw = train_df[['comment_text', 'target']].values] after the
    two column updates. *)
Definition train_data_raw (train_df : list TrainCsvRow) : list (string * Z) :=
  (λ r, (astype_str (csv_comment_text r), binarize_target (csv_target r))) <$> train_df.

(** [test_data_raw = test_df[['comment_text']].values]: rows of one column. *)
Definition test_data_raw (test_df : list TestCsvRow) : list (list string) :=
  (λ r, [astype_str (test_comment_text r)]) <$> test_df.

(** ** Preprocessing *)

(** The vocabulary of the pretrained model: [vocab[tokens]] maps every token
    to its index and a token that is not in the vocabulary to the index of
    the unknown token. *)
Record Vocab := {
  token_to_idx : gmap string nat;
  unknown_idx : nat
}.

Definition vocab_getitem (vocab : Vocab) (tokens : list string) : list nat :=
  (λ tok, default (unknown_idx vocab) (token_to_idx vocab !! tok)) <$> tokens.

(** [nlp.data.ClipSequence(500)] *)
Definition length_clip {X : Type} (sample : list X) : list X := take 500 sample.

Section Preprocess.
(** [nlp.data.SpacyTokenizer('en')]: a string to its list of tokens. *)
Variable tokenizer : string → list string.
Variable vocab : Vocab.

Definition preprocess (x : string * Z) : list nat * Z :=
  let '(data, label) := x in
  let data := vocab_getitem vocab (length_clip (tokenizer data)) in
  (data, label).

(** [x[0]] fails on a row without columns. *)
Definition test_preprocess (x : list string) : option (list nat) :=
  data ← x !! 0;
  Some (vocab_getitem vocab (length_clip (tokenizer data))).

Definition get_length {A : Type} {F : Backend A} (x : list nat * Z) : A :=
  f_float (length x.1).

(** [pool.map] keeps the order of its input. *)
Definition train_dataset (train_df : list TrainCsvRow) : list (list nat * Z) :=
  preprocess <$> train_data_raw train_df.

Definition train_data_lengths {A : Type} {F : Backend A}
           (train_df : list TrainCsvRow) : list A :=
  get_length <$> train_dataset train_df.

Definition test_dataset (test_df : list TestCsvRow) : option (list (list nat)) :=
  mapM test_preprocess (test_data_raw test_df).
End Preprocess.

(** ** Batching *)

(** [data.shape] of a batch-major matrix. *)
Definition shape0 {X : Type} (m : list (list X)) : nat := length m.
Definition shape1 {X : Type} (m : list (list X)) : nat :=
  match m with
  | [] => 0
  | r :: _ => length r
  end.

(** [m.T] *)
Definition transpose {X : Type} (m : list (list X)) : list (list X) :=
  (λ t, omap (λ r, r !! t) m) <$> seq 0 (shape1 m).

(** [nlp.data.batchify.Pad(axis=0, ret_length=True)]: every sample is padded
    with 0 to the longest sample of the batch; the result is the [(N, T)]
    matrix of token ids and the [N] original lengths. *)
Definition Pad (samples : list (list nat)) : list (list nat) * list nat :=
  let max_len := max_list (length <$> samples) in
  ((λ s, s ++ replicate (max_len - length s) 0) <$> samples, length <$> samples).

(** [nlp.data.batchify.Stack(dtype='float32')] on the labels. *)
Definition Stack (labels : list Z) : list Z := labels.

(** [batchify_fn = Tuple(Pad(axis=0, ret_length=True), Stack())] *)
Definition batchify_fn (samples : list (list nat * Z))
  : (list (list nat) * list nat) * list Z :=
  (Pad (fst <$> samples), Stack (snd <$> samples)).

Definition test_batchify_fn (samples : list (list nat)) : list (list nat) * list nat :=
  Pad samples.

(** The batch sampler behind [DataLoader(batch_size=..., shuffle=False)]:
    indices are collected in order, a batch is emitted when it is full, and
    the last, shorter batch is kept. *)
Fixpoint BatchSampler (batch_size : nat) (sampler : list nat) (batch : list nat)
  : list (list nat) :=
  match sampler with
  | [] => match batch with [] => [] | _ => [batch] end
  | i :: rest =>
      let batch := batch ++ [i] in
      if length batch =? batch_size then batch :: BatchSampler batch_size rest []
      else BatchSampler batch_size rest batch
  end.

(** [DataLoader(dataset, batch_size, shuffle=False, batchify_fn)]: sequential
    indices, sample lookup, then the batchify function. *)
Definition DataLoader {X Y : Type} (dataset : list X) (batch_size : nat)
           (batchify : list X → Y) : list Y :=
  (λ batch, batchify (omap (λ idx, dataset !! idx) batch))
    <$> BatchSampler batch_size (seq 0 (length dataset)) [].

(** [DataLoader(dataset, batch_sampler=..., batchify_fn)] *)
Definition DataLoader_sampled {X Y : Type} (dataset : list X)
           (batch_sampler : list (list nat)) (batchify : list X → Y) : list Y :=
  (λ batch, batchify (omap (λ idx, dataset !! idx) batch)) <$> batch_sampler.

(** ** [SentimentNet] *)
Module SentimentNet.
Section Net.
Context {A : Type} {F : Backend A}.

(** The parameters [net.collect_params()] holds: the embedding table and
    the encoder weights taken over from the pretrained language model, and
    the weight and bias of the [Dense(1)] output layer. *)
Record Params := {
  embedding_weight : list (list A);
  encoder_weight : list (list A);
  output_weight : list A;
  output_bias : A
}.

(** The pretrained [LSTM(200 -> 200, TNC, num_layers=2)] encoder: a
    function of its weights and of a time-major tensor. *)
Variable encoder : list (list A) → list (list (list A)) → list (list (list A)).

(** [Embedding]: each token id selects a row of the table; an index past
    the table is clipped to its last row. *)
Definition embedding (weight : list (list A)) (data : list (list nat))
  : list (list (list A)) :=
  (λ row : list nat,
     (λ tok, default [] (weight !! (tok `min` (length weight - 1)))) <$> row)
    <$> data.

(** [Dense(1, flatten=False)]: one affine unit on the last axis. *)
Definition dot (w x : list A) : A :=
  foldl (λ acc (p : A * A), f_add acc (f_mul p.1 p.2)) f_zero (zip w x).

Definition Dense (w : list A) (b : A) (x : list (list A)) : list (list A) :=
  (λ v : list A, [f_add (dot w v) b]) <$> x.

(** [Dropout(dropout)] outside of [autograd.record()], and with the
    notebook's [dropout = 0], passes its input on. *)
Definition Dropout (x : list (list A)) : list (list A) := x.

Definition output (p : Params) (x : list (list A)) : list (list A) :=
  Dense (output_weight p) (output_bias p) (Dropout x).

Definition hybrid_forward (p : Params) (data : list (list nat)) (valid_length : list A)
  : list (list A) :=
  let encoded := encoder (encoder_weight p) (embedding (embedding_weight p) data) in
  let agg_state := MeanPoolingLayer.hybrid_forward encoded valid_length in
  let out := output p agg_state in
  out.
End Net.
End SentimentNet.

(** ** Prediction *)
Record SubmissionRow (A : Type) := {
  sub_id : Z;
  sub_prediction : A
}.
Arguments sub_id {A} _.
Arguments sub_prediction {A} _.
Arguments Build_SubmissionRow {A} _ _.

Section Prediction.
Context {A : Type} {F : Backend A}.
Variable encoder : list (list A) → list (list (list A)) → list (list (list A)).
(** [NDArray.sigmoid] on one entry. *)
Variable sigmoid : A → A.

(** [net(data.as_in_context(context).T, length.as_in_context(context).astype(np.float32))] *)
Definition net_call (p : SentimentNet.Params) (batch : list (list nat) * list nat)
  : list (list A) :=
  let '(data, length) := batch in
  SentimentNet.hybrid_forward encoder p (transpose data) (f_float <$> length).

(** The inference loop: [results.extend(out for out in output)] per batch. *)
Definition inference_results (p : SentimentNet.Params)
           (test_dataloader : list (list (list nat) * list nat)) : list (list A) :=
  foldl (λ results batch, results ++ net_call p batch) [] test_dataloader.

(** [[result.sigmoid().asnumpy()[0] for result in results]] *)
Definition predictions (results : list (list A)) : option (list A) :=
  mapM (λ result : list A, (sigmoid <$> result) !! 0) results.

(** [pd.DataFrame.from_dict({'id': ..., 'prediction': ...})] refuses
    columns of different lengths. *)
Definition from_dict (ids : list Z) (preds : list A) : option (list (SubmissionRow A)) :=
  if bool_decide (length ids = length preds)
  then Some (zip_with Build_SubmissionRow ids preds)
  else None.

(** From [test_df] to the rows [to_csv] writes, in the order of the frame. *)
Definition submission (tokenizer : string → list string) (vocab : Vocab)
           (batch_size : nat) (p : SentimentNet.Params) (test_df : list TestCsvRow)
  : option (list (SubmissionRow A)) :=
  dataset ← test_dataset tokenizer vocab test_df;
  let test_dataloader := DataLoader dataset batch_size test_batchify_fn in
  let results := inference_results p test_dataloader in
  preds ← predictions results;
  from_dict (id <$> test_df) preds.
End Prediction.

(** ** The training loop *)
Section Training.
Context {A : Type} {F : Backend A}.

(** The state the optimisation mutates (parameters, optimizer state). *)
Variable P : Type.
(** One optimisation step on a batch: forward pass under
    [autograd.record()], [L.backward()], optional gradient clipping and
    [trainer.step(1)].  It returns [L.asscalar()], the mean loss of the
    batch, and the updated state. *)
Variable train_step : P → (list (list nat) * list nat) * list Z → A * P.

(** A printed log line, without the two fields read off the clock. *)
Record LogLine := {
  line_epoch : nat;
  line_batch : nat;
  line_total : nat;
  line_avg_loss : A
}.

Record Stats := {
  epoch_L : A;
  epoch_sent_num : nat;
  epoch_wc : nat;
  log_interval_wc : nat;
  log_interval_sent_num : nat;
  log_interval_L : A
}.

Record LoopState := {
  net_state : P;
  stats : Stats;
  printed : list LogLine
}.

Definition init_stats : Stats :=
  {| epoch_L := f_zero; epoch_sent_num := 0; epoch_wc := 0;
     log_interval_wc := 0; log_interval_sent_num := 0; log_interval_L := f_zero |}.

(** The body of [for i, ((data, length), label) in enumerate(train_dataloader)]. *)
Definition loop_body (log_interval epoch total : nat) (st : LoopState)
           (i : nat) (batch : (list (list nat) * list nat) * list Z) : LoopState :=
  let '((data, length), label) := batch in
  let s := stats st in
  let wc := sum_list length in
  let log_interval_wc := log_interval_wc s + wc in
  let epoch_wc := epoch_wc s + wc in
  let log_interval_sent_num := log_interval_sent_num s + shape1 data in
  let epoch_sent_num := epoch_sent_num s + shape1 data in
  let '(L, net') := train_step (net_state st) batch in
  let log_interval_L := f_add (log_interval_L s) L in
  let epoch_L := f_add (epoch_L s) L in
  if (i + 1) mod log_interval =? 0 then
    let line := {| line_epoch := epoch; line_batch := i + 1; line_total := total;
                   line_avg_loss := f_div log_interval_L (f_float log_interval_sent_num) |} in
    {| net_state := net';
       stats := {| epoch_L := epoch_L; epoch_sent_num := epoch_sent_num;
                   epoch_wc := epoch_wc;
                   log_interval_wc := 0; log_interval_sent_num := 0;
                   log_interval_L := f_zero |};
       printed := printed st ++ [line] |}
  else
    {| net_state := net';
       stats := {| epoch_L := epoch_L; epoch_sent_num := epoch_sent_num;
                   epoch_wc := epoch_wc;
                   log_interval_wc := log_interval_wc;
                   log_interval_sent_num := log_interval_sent_num;
                   log_interval_L := log_interval_L |};
       printed := printed st |}.

(** The batches [i, i+1, ...] of one epoch, in order. *)
Fixpoint run_batches (log_interval epoch total : nat) (st : LoopState) (i : nat)
         (batches : list ((list (list nat) * list nat) * list Z)) : LoopState :=
  match batches with
  | [] => st
  | batch :: rest =>
      run_batches log_interval epoch total
                  (loop_body log_interval epoch total st i batch) (S i) rest
  end.

(** The batch losses [L.asscalar()] of consecutive steps. *)
Fixpoint step_losses (net : P) (batches : list ((list (list nat) * list nat) * list Z))
  : list A :=
  match batches with
  | [] => []
  | batch :: rest =>
      let '(L, net') := train_step net batch in
      L :: step_losses net' rest
  end.

(** One pass of [for epoch in range(epochs)]: the statistics start afresh,
    the parameters and the output carry over.  The shuffling sampler hands
    out a new sequence of batches in every epoch. *)
Definition train_epoch (log_interval : nat)
           (train_dataloader : nat → list ((list (list nat) * list nat) * list Z))
           (st : LoopState) (epoch : nat) : LoopState :=
  run_batches log_interval epoch (length (train_dataloader epoch))
              {| net_state := net_state st; stats := init_stats; printed := printed st |}
              0 (train_dataloader epoch).

Definition train (epochs log_interval : nat)
           (train_dataloader : nat → list ((list (list nat) * list nat) * list Z))
           (net0 : P) : LoopState :=
  foldl (train_epoch log_interval train_dataloader)
        {| net_state := net0; stats := init_stats; printed := [] |}
        (seq 0 epochs).
End Training.

(** ** The bucketed batch sampler *)
Module FixedBucketSampler.

(** Modelled from the spec: [nlp.data.sampler.FixedBucketSampler] is a class
    of the NLP toolkit the notebook imports; its code is not part of the
    notebook.  The definitions of this module follow the specification's
    description of the sampler (a fixed number of length buckets, a batch
    size per bucket that is larger for shorter buckets, batches cut out of
    the buckets, sample order shuffled within and between buckets in every
    epoch) and the statistics the notebook prints for it.  Here: bucket
    keys of constant width below the longest sample, ascending. *)
Definition bucket_keys (lengths : list nat) (num_buckets : nat) : list nat :=
  let max_len := max_list lengths in
  let min_len := foldr Nat.min max_len lengths in
  let width := ((max_len - min_len) / num_buckets) `max` 1 in
  reverse ((λ i, (max_len - i * width) `max` min_len) <$> seq 0 num_buckets).

(** Modelled from the spec: a sample goes to the first bucket whose key
    covers its length, which is the one that pads it least; the last bucket
    takes what no key covers. *)
Definition bucket_of (keys : list nat) (len : nat) : nat :=
  match list_find (λ key, len ≤ key) keys with
  | Some (b, _) => b
  | None => length keys - 1
  end.

(** Modelled from the spec: the sample indices of every bucket, in dataset
    order. *)
Definition match_bucket_keys (keys : list nat) (lengths : list nat) : list (list nat) :=
  let tagged := imap (λ i len, (i, bucket_of keys len)) lengths in
  (λ b, fst <$> filter (λ p : nat * nat, p.2 = b) tagged) <$> seq 0 (length keys).

(** Modelled from the spec: the batch size of a bucket,
    [max(int(max_key / key * ratio * batch_size), batch_size)], which gives
    the printed sizes 256 and 128 for the printed keys. *)
Definition bucket_batch_size (batch_size : nat) (ratio : Q) (max_key key : nat) : nat :=
  Z.to_nat (Qfloor (inject_Z (Z.of_nat max_key) / inject_Z (Z.of_nat key)
                    * ratio * inject_Z (Z.of_nat batch_size)))
    `max` batch_size.

(** Modelled from the spec: the state of a sampler, with the fields its
    printed statistics show and the list of its batches. *)
Record Sampler := {
  sampler_bucket_keys : list nat;
  bucket_sample_ids : list (list nat);
  bucket_batch_sizes : list nat;
  batch_infos : list (nat * nat)
}.

(** [range(start, stop, step)], with fuel for the recursion. *)
Fixpoint range_from (fuel start stop step : nat) : list nat :=
  match fuel with
  | 0 => []
  | S fuel =>
      if start <? stop then start :: range_from fuel (start + step) stop step
      else []
  end.

(** [range(0, stop, step)] *)
Definition range_step (stop step : nat) : list nat := range_from stop 0 stop step.

(** Modelled from the spec: construction.  Buckets without samples are
    dropped; every remaining bucket is cut into batches, each recorded as
    (bucket, first position). *)
Definition init (lengths : list nat) (batch_size num_buckets : nat) (ratio : Q)
  : Sampler :=
  let all_keys := bucket_keys lengths num_buckets in
  let all_ids := match_bucket_keys all_keys lengths in
  let kept := filter (λ p : nat * list nat, p.2 ≠ []) (zip all_keys all_ids) in
  let keys := fst <$> kept in
  let ids := snd <$> kept in
  let max_key := max_list keys in
  let sizes := bucket_batch_size batch_size ratio max_key <$> keys in
  let infos :=
    mjoin (imap (λ b (p : list nat * nat), (λ i, (b, i)) <$> range_step (length p.1) p.2)
                (zip ids sizes)) in
  {| sampler_bucket_keys := keys; bucket_sample_ids := ids;
     bucket_batch_sizes := sizes; batch_infos := infos |}.

(** [l[b:e]] *)
Definition slice {X : Type} (l : list X) (b e : nat) : list X := take (e - b) (drop b l).

Section Iter.
(** The random shuffles of one epoch: of the batch order and of the
    samples inside each bucket. *)
Variable shuffle_batches : list (nat * nat) → list (nat * nat).
Variable shuffle_bucket : nat → list nat → list nat.

(** Modelled from the spec: one epoch.  The batch order and the samples
    inside each bucket are shuffled, then every batch is cut out of its
    bucket; the result is the list of batches in the order they are
    yielded. *)
Definition iter (s : Sampler) : list (list nat) :=
  let infos := shuffle_batches (batch_infos s) in
  let ids := imap shuffle_bucket (bucket_sample_ids s) in
  (λ info : nat * nat,
     let '(bucket_id, batch_begin) := info in
     let bucket := default [] (ids !! bucket_id) in
     let batch_size := default 0 (bucket_batch_sizes s !! bucket_id) in
     let batch_end := (batch_begin + batch_size) `min` length bucket in
     slice bucket batch_begin batch_end) <$> infos.
End Iter.
End FixedBucketSampler.

(** ** Saving and loading the parameters *)
Module ParameterFiles.
Section Files.
Context {A : Type}.

(** Modelled from the spec: [net.save_parameters] is a method of the
    deep-learning framework; its code and file format are not part of the
    notebook.  The specification describes the persisted model state as a
    parameter snapshot saved to a named file: the files are a map from
    names to snapshots, and saving stores the snapshot under the name. *)
Definition save_parameters (filename : string) (net : @SentimentNet.Params A)
           (files : gmap string (@SentimentNet.Params A))
  : gmap string (@SentimentNet.Params A) :=
  <[filename := net]> files.

(** Modelled from the spec: [net.load_parameters] is a method of the
    deep-learning framework, absent like [save_parameters].  Loading
    replaces the parameters of the network by the snapshot of the named
    file; it fails when there is no such file. *)
Definition load_parameters (filename : string) (net : @SentimentNet.Params A)
           (files : gmap string (@SentimentNet.Params A))
  : option (@SentimentNet.Params A) :=
  files !! filename.
End Files.
End ParameterFiles.

(** ** The logistic function on real numbers *)
Definition sigmoid (x : R) : R := (1 / (1 + exp (- x)))%R.

(** ** Small inputs on which the model is run *)

Ltac shape_tac := repeat (split || constructor).

Definition demo_features : list (list (list Q)) :=
  [ [[1;2]; [10;20]]; [[3;4]; [30;40]]; [[5;7]; [50;60]] ]%Q.

(** The same batch with other values in the padding position of sample 0. *)
Definition demo_features_repadded : list (list (list Q)) :=
  [ [[1;2]; [10;20]]; [[3;4]; [30;40]]; [[-8;9]; [50;60]] ]%Q.

Definition demo_vocab : Vocab :=
  {| token_to_idx := {[ "<unk>" := 0; "This" := 1; "movie" := 2; "is" := 3;
                        "amazing" := 4 ]}%string;
     unknown_idx := 0 |}.

(** A tokenizer that splits at blanks. *)
Definition demo_tokenizer (text : string) : list string := String.words text.

(** An encoder that hands the embeddings on. *)
Definition demo_encoder (w : list (list Q)) (x : list (list (list Q)))
  : list (list (list Q)) := x.

(** A rational squashing function standing in for the sigmoid. *)
Definition demo_squash (x : Q) : Q := ((1 + x / (1 + Qabs x)) / 2)%Q.

Definition demo_params : @SentimentNet.Params Q :=
  {| SentimentNet.embedding_weight := [[0; 0]; [1; 2]; [3; 4]; [5; 6]; [7; 8]]%Q;
     SentimentNet.encoder_weight := [];
     SentimentNet.output_weight := [1; -1]%Q;
     SentimentNet.output_bias := (1 # 2)%Q |}.

Definition demo_test_df : list TestCsvRow :=
  [ {| id := 7000000; test_comment_text := Some "This movie is amazing"%string |};
    {| id := 7000001; test_comment_text := None |};
    {| id := 7000002; test_comment_text := Some "is This"%string |} ].

(** A training batch of two samples, the longer one of three tokens. *)
Definition demo_train_batch : (list (list nat) * list nat) * list Z :=
  batchify_fn [([5; 6; 7], 1%Z); ([8], 0%Z)].

(** An optimisation step whose batch loss is 6. *)
Definition demo_train_step (net : unit) (batch : (list (list nat) * list nat) * list Z)
  : Q * unit := (6%Q, tt).

(** A batch of one sample: sample 1 of [demo_features] on its own. *)
Definition demo_single_features : list (list (list Q)) :=
  [ [[10;20]]; [[30;40]]; [[50;60]] ]%Q.

(** Two time-major token batches [(T, N) = (3, 2)] for the valid lengths 3
    and 1, which differ in the padding positions of the second sample. *)
Definition demo_token_batch : list (list nat) := [[1; 4]; [2; 0]; [3; 0]].
Definition demo_token_batch_repadded : list (list nat) := [[1; 4]; [2; 3]; [3; 2]].

(** The state at the start of an epoch, nothing printed yet. *)
Definition demo_log_state : LoopState unit :=
  {| net_state := tt; stats := init_stats; printed := [] |}.

(** A loader that hands out the same five batches in every epoch. *)
Definition demo_train_dataloader (epoch : nat)
  : list ((list (list nat) * list nat) * list Z) :=
  replicate 5 demo_train_batch.

(** A loader of thirteen batches per epoch. *)
Definition demo_long_dataloader (epoch : nat)
  : list ((list (list nat) * list nat) * list Z) :=
  replicate 13 demo_train_batch.

(** * Properties *)

(** ** Auxiliary facts on folds over zipped lists *)
Section FoldZip.
Context {B : Type} (g : B → B → B).

Lemma foldl_zip_with_length (rows : list (list B)) (acc : list B) :
  Forall (λ r, length r = length acc) rows →
  length (foldl (zip_with g) acc rows) = length acc.
Proof.
  revert acc. induction rows as [|r rows IH]; intros acc Hlen; [done|].
  apply Forall_cons in Hlen as [Hr Hrows]. cbn [foldl].
  assert (Hz : length (zip_with g acc r) = length acc)
    by (rewrite length_zip_with; lia).
  rewrite IH, Hz; [done|].
  eapply Forall_impl; [exact Hrows|]. intros r' Hr'. simpl in *. lia.
Qed.

Lemma foldl_zip_with_lookup (rows : list (list B)) (acc : list B) n a :
  acc !! n = Some a →
  Forall (λ r, length r = length acc) rows →
  foldl (zip_with g) acc rows !! n = Some (foldl g a (omap (λ r, r !! n) rows)).
Proof.
  revert acc a. induction rows as [|r rows IH]; intros acc a Ha Hlen; [done|].
  apply Forall_cons in Hlen as [Hr Hrows].
  destruct (lookup_lt_is_Some_2 r n) as [b Hb].
  { rewrite Hr. eapply lookup_lt_Some, Ha. }
  cbn [foldl omap list_omap]. rewrite Hb.
  apply IH.
  - rewrite lookup_zip_with, Ha. simpl. by rewrite Hb.
  - rewrite length_zip_with.
    eapply Forall_impl; [exact Hrows|]. intros r' Hr'. simpl in *. lia.
Qed.
End FoldZip.

(** ** Mean pooling *)
Section MeanPoolingFacts.
Context {A : Type} {F : Backend A}.
Import MeanPoolingLayer.

Example hybrid_forward_run :
  hybrid_forward (F := Q_backend)
    [ [[1;2]; [10;20]]; [[3;4]; [30;40]]; [[5;7]; [50;60]] ]%Q [2; 3]%Q
  = [ [4 # 2; 6 # 2]; [90 # 3; 120 # 3] ]%Q.
Proof. vm_compute. reflexivity. Qed.

Lemma zeros_like_replicate (feat : list A) :
  zeros_like feat = replicate (length feat) f_zero.
Proof.
  unfold zeros_like. induction feat as [|a feat IH]; [done|].
  by rewrite fmap_cons, IH.
Qed.

Lemma zip_add_zeros (acc feat : list A) :
  (∀ x, f_add x f_zero = x) →
  length feat = length acc →
  zip_with f_add acc (zeros_like feat) = acc.
Proof.
  intros Hadd. revert feat. induction acc as [|a acc IH]; intros [|b feat] Hlen;
    simplify_eq/=; [done|].
  by rewrite Hadd, IH.
Qed.

Lemma omap_imap_zip_with (M : nat → list A → A → list A)
      (rows : list (list (list A))) (vl : list A) n v :
  vl !! n = Some v →
  Forall (λ row, n < length row) rows →
  omap (λ row, row !! n) (imap (λ t row, zip_with (M t) row vl) rows)
  = imap (λ t feat, M t feat v) (omap (λ row, row !! n) rows).
Proof.
  intros Hv. revert M. induction rows as [|row rows IH]; intros M Hrows; [done|].
  apply Forall_cons in Hrows as [Hrow Hrows].
  destruct (lookup_lt_is_Some_2 row n Hrow) as [feat Hfeat].
  cbn [imap omap list_omap]. rewrite lookup_zip_with, Hfeat. simpl. rewrite Hv. simpl.
  f_equal. apply (IH (λ t, M (S t)) Hrows).
Qed.

Lemma sample_features_mask T N C (data : list (list (list A))) (vl : list A) n len :
  has_shape3 T N C data → vl !! n = Some len → n < N →
  sample_features n (SequenceMask data vl) = mask_sample len (sample_features n data).
Proof.
  intros [_ Hrows] Hlen Hn. unfold SequenceMask, mask_sample, sample_features.
  apply (omap_imap_zip_with
           (λ t feat l, if bool_decide (Z.of_nat t < f_int l)%Z then feat
                        else zeros_like feat)); [done|].
  eapply Forall_impl; [exact Hrows|]. intros row [HN _]. simpl. lia.
Qed.

Lemma sample_features_shape T N C (data : list (list (list A))) n :
  has_shape3 T N C data → n < N →
  length (sample_features n data) = T ∧
  Forall (λ feat, length feat = C) (sample_features n data).
Proof.
  intros [HT Hrows] Hn. subst T. unfold sample_features.
  induction Hrows as [|row rows [HN HC] _ IH]; [done|].
  destruct (lookup_lt_is_Some_2 row n) as [feat Hfeat]; [lia|].
  cbn [omap list_omap]. rewrite Hfeat. destruct IH as [IH1 IH2].
  split; [simpl; by rewrite IH1|].
  constructor; [|done].
  eapply Forall_lookup_1 in HC; [exact HC|exact Hfeat].
Qed.

(** Adding masked time steps is adding the time steps before the length. *)
Lemma foldl_mask_take (len : A) (feats : list (list A)) (acc : list A) :
  (∀ x, f_add x f_zero = x) →
  Forall (λ feat, length feat = length acc) feats →
  foldl (zip_with f_add) acc (mask_sample len feats)
  = foldl (zip_with f_add) acc (take (Z.to_nat (f_int len)) feats).
Proof.
  intros Hadd. unfold mask_sample.
  assert (Hgen : ∀ off,
    Forall (λ feat, length feat = length acc) feats →
    foldl (zip_with f_add) acc
      (imap (λ t feat, if bool_decide (Z.of_nat (off + t) < f_int len)%Z then feat
                       else zeros_like feat) feats)
    = foldl (zip_with f_add) acc (take (Z.to_nat (f_int len) - off) feats)).
  { revert acc. induction feats as [|feat feats IH]; intros acc off Hlen.
    { by rewrite take_nil. }
    apply Forall_cons in Hlen as [Hfeat Hfeats].
    cbn [imap]. rewrite Nat.add_0_r.
    assert (Himap : imap ((λ t feat0, if bool_decide (Z.of_nat (off + t) < f_int len)%Z
                                     then feat0 else zeros_like feat0) ∘ S) feats
                    = imap (λ t feat0, if bool_decide (Z.of_nat (S off + t) < f_int len)%Z
                                       then feat0 else zeros_like feat0) feats).
    { apply imap_ext. intros t x _. simpl. by replace (off + S t) with (S (off + t)) by lia. }
    rewrite Himap. clear Himap.
    case_bool_decide as Hlt.
    - replace (Z.to_nat (f_int len) - off) with (S (Z.to_nat (f_int len) - S off)) by lia.
      cbn [take foldl]. apply IH.
      rewrite length_zip_with.
      eapply Forall_impl; [exact Hfeats|]. intros x Hx. simpl in *. lia.
    - replace (Z.to_nat (f_int len) - off) with 0 by lia.
      cbn [take foldl]. rewrite zip_add_zeros by done.
      rewrite IH by done.
      by replace (Z.to_nat (f_int len) - S off) with 0 by lia. }
  intros Hlen. specialize (Hgen 0 Hlen). by rewrite Nat.sub_0_r in Hgen.
Qed.

Lemma vsum_length C (feats : list (list A)) :
  Forall (λ feat, length feat = C) feats → length (vsum C feats) = C.
Proof.
  intros Hlen. unfold vsum. rewrite foldl_zip_with_length; rewrite length_replicate; done.
Qed.

Lemma SequenceMask_shape T N C (data : list (list (list A))) (vl : list A) :
  has_shape3 T N C data → length vl = N → has_shape3 T N C (SequenceMask data vl).
Proof.
  intros [HlenT Hrows] HN. split.
  - unfold SequenceMask. by rewrite length_imap.
  - unfold SequenceMask. apply Forall_lookup. intros t mrow Ht.
    rewrite list_lookup_imap in Ht.
    destruct (data !! t) as [row|] eqn:Hrow; simplify_eq/=.
    eapply Forall_lookup_1 in Hrows as [HrN HrC]; [|exact Hrow].
    split; [rewrite length_zip_with; lia|].
    apply Forall_lookup. intros m feat Hm.
    rewrite lookup_zip_with in Hm.
    destruct (row !! m) as [f|] eqn:Hf; simplify_eq/=.
    destruct (vl !! m) as [l|]; simplify_eq/=.
    eapply Forall_lookup_1 in HrC; [|exact Hf].
    case_bool_decide; [done|]. by rewrite zeros_like_replicate, length_replicate.
Qed.

Lemma sum_axis0_length T N C (x : list (list (list A))) :
  0 < T → has_shape3 T N C x → length (sum_axis0 x) = N.
Proof.
  intros HT [HlenT Hrows]. destruct x as [|row0 rest]; [simpl in *; lia|].
  unfold sum_axis0. pose proof Hrows as Hrows'.
  apply Forall_cons in Hrows' as [[Hr0 _] _].
  rewrite foldl_zip_with_length; rewrite length_fmap; [done|].
  eapply Forall_impl; [exact Hrows|]. intros r [Hr _]. simpl. lia.
Qed.

(** The row of sample [n] in the pooled output, with the mask still in
    place: no law of the scalar operations is needed. *)
Lemma hybrid_forward_lookup T N C (data : list (list (list A))) (vl : list A) n len :
  0 < T → has_shape3 T N C data → length vl = N → vl !! n = Some len →
  hybrid_forward data vl !! n
  = Some ((λ s, f_div s len) <$> vsum C (mask_sample len (sample_features n data))).
Proof.
  intros HT Hshape HN Hlen.
  assert (Hn : n < N) by (subst N; eapply lookup_lt_Some, Hlen).
  unfold hybrid_forward, broadcast_div, expand_dims.
  rewrite lookup_zip_with, list_lookup_fmap, Hlen. simpl.
  rewrite <- (sample_features_mask T N C data vl n len) by done.
  pose proof (SequenceMask_shape T N C data vl Hshape HN) as Hmshape.
  generalize dependent (SequenceMask data vl). intros masked Hmshape.
  destruct Hmshape as [HlenT Hrows].
  destruct masked as [|row0 rest]; [simpl in *; lia|].
  unfold sum_axis0.
  pose proof Hrows as Hrows'.
  apply Forall_cons in Hrows' as [[Hr0N Hr0C] _].
  destruct (lookup_lt_is_Some_2 row0 n) as [feat0 Hfeat0]; [lia|].
  erewrite foldl_zip_with_lookup; cycle 1.
  { rewrite list_lookup_fmap, Hfeat0. done. }
  { rewrite length_fmap. eapply Forall_impl; [exact Hrows|]. intros r [Hr _]. simpl. lia. }
  simpl. do 2 f_equal. unfold vsum, sample_features.
  rewrite zeros_like_replicate. do 2 f_equal.
  eapply Forall_lookup_1 in Hr0C; [exact Hr0C|exact Hfeat0].
Qed.

(** C1: for a well-shaped batch [(T, N, C)] with [N] valid lengths, the
    mean-pooling layer returns one vector of width [C] per sample; the
    vector of sample [n] is the sum over the time axis of its feature
    vectors with the positions from the valid length on zeroed out, which
    is the sum of the feature vectors before the valid length, divided by
    the valid length. *)
Theorem mean_pool_masked_mean T N C (data : list (list (list A))) (vl : list A) :
  (∀ x, f_add x f_zero = x) →
  0 < T → has_shape3 T N C data → length vl = N →
  has_shape2 N C (hybrid_forward data vl) ∧
  ∀ n len, vl !! n = Some len →
    hybrid_forward data vl !! n
    = Some ((λ s, f_div s len) <$> vsum C (mask_sample len (sample_features n data)))
    ∧ hybrid_forward data vl !! n
      = Some (mean_of_prefix C (sample_features n data) len).
Proof.
  intros Hadd HT Hshape HN.
  assert (Hrow : ∀ n len, vl !! n = Some len →
    hybrid_forward data vl !! n
    = Some (mean_of_prefix C (sample_features n data) len)).
  { intros n len Hlen.
    assert (Hn : n < N) by (subst N; eapply lookup_lt_Some, Hlen).
    destruct (sample_features_shape T N C data n Hshape Hn) as [_ HC].
    rewrite (hybrid_forward_lookup T N C data vl n len) by done.
    unfold mean_of_prefix, vsum. rewrite foldl_mask_take; [done|done|].
    by rewrite length_replicate. }
  split; [split|].
  - unfold hybrid_forward, broadcast_div, expand_dims.
    rewrite length_zip_with, length_fmap.
    rewrite (sum_axis0_length T N C); [lia|done|].
    by apply SequenceMask_shape.
  - apply Forall_lookup. intros n out Hout.
    assert (Hn : n < N).
    { apply lookup_lt_Some in Hout. unfold hybrid_forward, broadcast_div, expand_dims in Hout.
      rewrite length_zip_with, length_fmap in Hout. lia. }
    destruct (lookup_lt_is_Some_2 vl n) as [len Hlen]; [lia|].
    rewrite (Hrow n len Hlen) in Hout. injection Hout as <-.
    destruct (sample_features_shape T N C data n Hshape Hn) as [_ HC].
    unfold mean_of_prefix. rewrite length_fmap. apply vsum_length.
    by apply Forall_take.
  - intros n len Hlen. split; [|by apply Hrow].
    by apply (hybrid_forward_lookup T N C data vl n len).
Qed.

Lemma SequenceMask_ext T N C (data1 data2 : list (list (list A))) (vl : list A) :
  has_shape3 T N C data1 → has_shape3 T N C data2 →
  (∀ n len t, vl !! n = Some len → (Z.of_nat t < f_int len)%Z →
     data1 !! t ≫= (λ row, row !! n) = data2 !! t ≫= (λ row, row !! n)) →
  SequenceMask data1 vl = SequenceMask data2 vl.
Proof.
  intros [HT1 Hrows1] [HT2 Hrows2] Hagree. unfold SequenceMask.
  apply list_eq. intros t. rewrite !list_lookup_imap.
  destruct (data1 !! t) as [row1|] eqn:Hrow1, (data2 !! t) as [row2|] eqn:Hrow2; simpl.
  - f_equal. apply list_eq. intros n. rewrite !lookup_zip_with.
    eapply Forall_lookup_1 in Hrows1 as [HN1 HC1]; [|exact Hrow1].
    eapply Forall_lookup_1 in Hrows2 as [HN2 HC2]; [|exact Hrow2].
    destruct (row1 !! n) as [feat1|] eqn:Hf1, (row2 !! n) as [feat2|] eqn:Hf2; simpl.
    + destruct (vl !! n) as [len|] eqn:Hlen; [simpl|done].
      case_bool_decide as Hlt.
      * specialize (Hagree n len t Hlen Hlt).
        rewrite Hrow1, Hrow2 in Hagree. simpl in Hagree. congruence.
      * rewrite !zeros_like_replicate.
        eapply Forall_lookup_1 in HC1; [|exact Hf1].
        eapply Forall_lookup_1 in HC2; [|exact Hf2]. congruence.
    + apply lookup_lt_Some in Hf1. apply lookup_ge_None in Hf2. lia.
    + apply lookup_lt_Some in Hf2. apply lookup_ge_None in Hf1. lia.
    + done.
  - apply lookup_lt_Some in Hrow1. apply lookup_ge_None in Hrow2. lia.
  - apply lookup_lt_Some in Hrow2. apply lookup_ge_None in Hrow1. lia.
  - done.
Qed.

(** C2: two batches of the same shape that carry the same valid-length
    vector and agree, for every sample, on the time steps before its valid
    length give the same pooled output, whatever the padding positions
    hold. *)
Theorem mean_pool_ignores_padding T N C (data1 data2 : list (list (list A)))
        (vl : list A) :
  has_shape3 T N C data1 → has_shape3 T N C data2 →
  (∀ n len t, vl !! n = Some len → (Z.of_nat t < f_int len)%Z →
     data1 !! t ≫= (λ row, row !! n) = data2 !! t ≫= (λ row, row !! n)) →
  hybrid_forward data1 vl = hybrid_forward data2 vl.
Proof.
  intros H1 H2 Hagree. unfold hybrid_forward.
  by rewrite (SequenceMask_ext T N C data1 data2 vl).
Qed.

Lemma div_row_checked_singleton (xr : list A) (d : A) :
  f_is_zero d = false →
  div_row_checked xr [d] = Some ((λ a, f_div a d) <$> xr).
Proof.
  intros Hd. unfold div_row_checked.
  induction xr as [|a xr IH]; [done|].
  cbn [mapM]. rewrite IH. unfold checked_div. by rewrite Hd.
Qed.

Lemma broadcast_div_checked_expand (x : list (list A)) (vl : list A) :
  Forall (λ len, f_is_zero len = false) vl →
  broadcast_div_checked x (expand_dims vl) = Some (broadcast_div x (expand_dims vl)).
Proof.
  intros Hvl. revert x. unfold broadcast_div_checked, broadcast_div, expand_dims.
  induction Hvl as [|len vl Hlen _ IH]; intros [|xr x]; try done.
  rewrite !fmap_cons. cbn [zip zip_with mapM]. rewrite (IH x).
  cbn [fst snd]. rewrite div_row_checked_singleton by done. done.
Qed.

(** C5: when every valid length of the batch is at least 1, no division of
    the mean-pooling layer has a zero divisor: the instrumented layer never
    reports a division by zero and returns what the layer returns. *)
Theorem mean_pool_division_defined (data : list (list (list A))) (vl : list A) :
  (∀ x, f_is_zero x = true → f_int x = 0%Z) →
  Forall (λ len, (1 ≤ f_int len)%Z) vl →
  hybrid_forward_checked data vl = Some (hybrid_forward data vl).
Proof.
  intros Hzero Hvl. unfold hybrid_forward_checked, hybrid_forward.
  apply broadcast_div_checked_expand.
  eapply Forall_impl; [exact Hvl|]. intros len Hlen. simpl in Hlen.
  destruct (f_is_zero len) eqn:Hz; [|done].
  apply Hzero in Hz. lia.
Qed.
End MeanPoolingFacts.

(** The laws used above hold on the rationals. *)
Lemma Q_add_zero (x : Q) : Qplus x 0 = x.
Proof.
  destruct x as [n d]. unfold Qplus. simpl.
  rewrite Z.mul_1_r, Z.add_0_r, Pos.mul_1_r. reflexivity.
Qed.

Lemma Q_is_zero_int (x : Q) : Q_is_zero x = true → Q_int x = 0%Z.
Proof.
  unfold Q_is_zero, Q_int. intros Hx. apply Z.eqb_eq in Hx. rewrite Hx.
  apply Z.quot_0_l. discriminate.
Qed.

Lemma mean_pool_masked_mean_witness :
  has_shape2 2 2 (MeanPoolingLayer.hybrid_forward demo_features [2; 3]%Q) ∧
  MeanPoolingLayer.hybrid_forward demo_features [2; 3]%Q !! 0
  = Some (MeanPoolingLayer.mean_of_prefix 2 (sample_features 0 demo_features) 2%Q) ∧
  MeanPoolingLayer.hybrid_forward demo_features [2; 3]%Q !! 1
  = Some (MeanPoolingLayer.mean_of_prefix 2 (sample_features 1 demo_features) 3%Q).
Proof.
  destruct (mean_pool_masked_mean 3 2 2 demo_features [2; 3]%Q) as [Hshape Hrows].
  - exact Q_add_zero.
  - lia.
  - shape_tac.
  - reflexivity.
  - split; [exact Hshape|].
    split; [apply (Hrows 0 2%Q eq_refl)|apply (Hrows 1 3%Q eq_refl)].
Defined.

Lemma mean_pool_ignores_padding_witness :
  MeanPoolingLayer.hybrid_forward demo_features [2; 3]%Q
  = MeanPoolingLayer.hybrid_forward demo_features_repadded [2; 3]%Q.
Proof.
  apply (mean_pool_ignores_padding 3 2 2 demo_features demo_features_repadded [2; 3]%Q).
  - shape_tac.
  - shape_tac.
  - intros [|[|n]] len t Hlen Ht; simpl in Hlen; [| |discriminate];
      injection Hlen as <-; destruct t as [|[|[|t]]]; try reflexivity.
    vm_compute in Ht. discriminate.
Defined.

Lemma mean_pool_division_defined_witness :
  MeanPoolingLayer.hybrid_forward_checked demo_features [2; 3]%Q
  = Some (MeanPoolingLayer.hybrid_forward demo_features [2; 3]%Q).
Proof.
  apply (mean_pool_division_defined demo_features [2; 3]%Q).
  - exact Q_is_zero_int.
  - repeat constructor; vm_compute; discriminate.
Defined.

(** ** The bucketed sampler *)
Section ListFacts.
Context {X : Type}.

Lemma join_filter_nonempty (ls : list (list X)) :
  mjoin (filter (λ l, l ≠ []) ls) = mjoin ls.
Proof.
  induction ls as [|l ls IH]; [done|].
  rewrite filter_cons. destruct (decide (l ≠ [])) as [Hl|Hl]; simpl; rewrite IH; [done|].
  destruct l; [done|]. by destruct Hl.
Qed.

Lemma fmap_join {Y : Type} (f : X → Y) (ls : list (list X)) :
  f <$> mjoin ls = mjoin (fmap f <$> ls).
Proof.
  induction ls as [|l ls IH]; [done|]. simpl. by rewrite fmap_app, IH.
Qed.

(** Putting one more element into the buckets puts it into the bucket of
    its class, and nowhere else. *)
Lemma buckets_cons (c : X → nat) (x : X) (l : list X) (bs : list nat) :
  NoDup bs →
  mjoin ((λ b, filter (λ y, c y = b) (x :: l)) <$> bs)
  ≡ₚ (if decide (c x ∈ bs) then [x] else [])
     ++ mjoin ((λ b, filter (λ y, c y = b) l) <$> bs).
Proof.
  induction 1 as [|b bs Hb Hbs IH].
  { simpl. destruct (decide (c x ∈ [])) as [Hin|_]; [|done]. by apply elem_of_nil in Hin. }
  rewrite !fmap_cons. simpl. rewrite IH. rewrite filter_cons.
  destruct (decide (c x = b)) as [Hc|Hc].
  - destruct (decide (c x ∈ bs)) as [Hin|_]; [by subst b|].
    destruct (decide (c x ∈ b :: bs)) as [_|Hnin]; [done|].
    destruct Hnin. subst b. left.
  - destruct (decide (c x ∈ bs)) as [Hin|Hnin].
    + destruct (decide (c x ∈ b :: bs)) as [_|Hnin]; [|destruct Hnin; by right].
      simpl. by rewrite Permutation_middle.
    + destruct (decide (c x ∈ b :: bs)) as [Hin|_]; [|done].
      apply elem_of_cons in Hin as [?|?]; done.
Qed.

(** Buckets by class partition the list. *)
Lemma buckets_partition (c : X → nat) (l : list X) (K : nat) :
  Forall (λ x, c x < K) l →
  mjoin ((λ b, filter (λ y, c y = b) l) <$> seq 0 K) ≡ₚ l.
Proof.
  induction 1 as [|x l Hx _ IH].
  { apply Permutation_nil_r. apply join_nil_2, Forall_fmap, Forall_true. done. }
  rewrite buckets_cons by apply NoDup_seq.
  destruct (decide (c x ∈ seq 0 K)) as [_|Hnin].
  - simpl. by rewrite IH.
  - destruct Hnin. apply elem_of_seq. lia.
Qed.

(** Consecutive slices of width [step] put the list back together. *)
Lemma join_slices (l : list X) (step fuel start : nat) :
  0 < step → length l - start ≤ fuel →
  mjoin ((λ i, FixedBucketSampler.slice l i ((i + step) `min` length l))
           <$> FixedBucketSampler.range_from fuel start (length l) step)
  = drop start l.
Proof.
  intros Hstep. revert start. induction fuel as [|fuel IH]; intros start Hfuel.
  { simpl. rewrite drop_ge; [done|lia]. }
  cbn [FixedBucketSampler.range_from].
  destruct (start <? length l) eqn:Hlt.
  - apply Nat.ltb_lt in Hlt. rewrite fmap_cons. simpl. rewrite IH by lia.
    unfold FixedBucketSampler.slice.
    rewrite <- (take_drop step (drop start l)) at 2.
    rewrite drop_drop. f_equal.
    destruct (decide (start + step ≤ length l)).
    + f_equal. lia.
    + rewrite !take_ge; [done| |]; rewrite length_drop; lia.
  - apply Nat.ltb_ge in Hlt. simpl. rewrite drop_ge; [done|lia].
Qed.
End ListFacts.

Section SamplerFacts.
Import FixedBucketSampler.

Lemma bucket_of_lt (keys : list nat) (len : nat) :
  keys ≠ [] → bucket_of keys len < length keys.
Proof.
  intros Hkeys. unfold bucket_of.
  destruct (list_find (λ key, len ≤ key) keys) as [[b key]|] eqn:Hfind.
  - apply list_find_Some in Hfind as (Hb & _ & _). eapply lookup_lt_Some, Hb.
  - destruct keys; [done|]. simpl. lia.
Qed.

Lemma length_bucket_keys (lengths : list nat) (num_buckets : nat) :
  length (bucket_keys lengths num_buckets) = num_buckets.
Proof. unfold bucket_keys. by rewrite length_reverse, length_fmap, length_seq. Qed.

Lemma length_match_bucket_keys (keys lengths : list nat) :
  length (match_bucket_keys keys lengths) = length keys.
Proof. unfold match_bucket_keys. by rewrite length_fmap, length_seq. Qed.

(** The buckets hold every sample index once. *)
Lemma match_bucket_keys_perm (keys lengths : list nat) :
  keys ≠ [] →
  mjoin (match_bucket_keys keys lengths) ≡ₚ seq 0 (length lengths).
Proof.
  intros Hkeys. unfold match_bucket_keys.
  set (tagged := imap (λ i len, (i, bucket_of keys len)) lengths).
  assert (Hfst : fst <$> tagged = seq 0 (length lengths)).
  { unfold tagged. rewrite fmap_imap.
    rewrite (imap_ext _ (λ j _, j)) by done.
    rewrite (imap_seq_0 lengths (λ j, j)). by rewrite list_fmap_id. }
  rewrite <- Hfst.
  assert (Hcomp :
    (λ b, fst <$> filter (λ p : nat * nat, p.2 = b) tagged) <$> seq 0 (length keys)
    = fmap fst <$> ((λ b, filter (λ p : nat * nat, p.2 = b) tagged)
                      <$> seq 0 (length keys)))
    by (by rewrite <- list_fmap_compose).
  rewrite Hcomp. clear Hcomp.
  rewrite <- fmap_join.
  apply fmap_Permutation.
  apply (buckets_partition snd).
  apply Forall_lookup. intros i p Hp. unfold tagged in Hp.
  rewrite list_lookup_imap in Hp.
  destruct (lengths !! i) as [len|]; simplify_eq/=.
  by apply bucket_of_lt.
Qed.

Lemma snd_filter_zip_nonempty {K V : Type} (ks : list K) (vs : list (list V)) :
  length vs ≤ length ks →
  snd <$> filter (λ p : K * list V, p.2 ≠ []) (zip ks vs) = filter (λ l, l ≠ []) vs.
Proof.
  revert ks. induction vs as [|v vs IH]; intros [|k ks] Hlen; simpl in *; try done; try lia.
  rewrite !filter_cons. simpl. destruct (decide (v ≠ [])); simpl; rewrite IH; done || lia.
Qed.

Lemma init_bucket_sample_ids (lengths : list nat) (batch_size num_buckets : nat)
      (ratio : Q) :
  0 < num_buckets →
  mjoin (bucket_sample_ids (init lengths batch_size num_buckets ratio))
  ≡ₚ seq 0 (length lengths).
Proof.
  intros Hnb. unfold init. cbn [bucket_sample_ids].
  rewrite snd_filter_zip_nonempty.
  - rewrite join_filter_nonempty. apply match_bucket_keys_perm.
    intros Hnil. apply (f_equal length) in Hnil.
    rewrite length_bucket_keys in Hnil. simpl in Hnil. lia.
  - by rewrite length_match_bucket_keys.
Qed.

Lemma join_join {X : Type} (lss : list (list (list X))) :
  mjoin (mjoin lss) = mjoin (mjoin <$> lss).
Proof.
  induction lss as [|ls lss IH]; [done|]. simpl. by rewrite join_app, IH.
Qed.

Lemma join_imap_Permutation {X : Type} (f : nat → list X → list X)
      (ls : list (list X)) :
  (∀ b l, f b l ≡ₚ l) → mjoin (imap f ls) ≡ₚ mjoin ls.
Proof.
  revert f. induction ls as [|l ls IH]; intros f Hf; [done|].
  cbn [imap]. simpl. rewrite Hf. apply Permutation_app_head.
  apply IH. intros b k. apply Hf.
Qed.

Lemma bucket_batch_size_pos (batch_size : nat) (ratio : Q) (max_key key : nat) :
  0 < batch_size → 0 < bucket_batch_size batch_size ratio max_key key.
Proof. unfold bucket_batch_size. lia. Qed.

Section Epoch.
Variable shuffle_batches : list (nat * nat) → list (nat * nat).
Variable shuffle_bucket : nat → list nat → list nat.
Hypothesis shuffle_batches_perm : ∀ l, shuffle_batches l ≡ₚ l.
Hypothesis shuffle_bucket_perm : ∀ b l, shuffle_bucket b l ≡ₚ l.

(** The batches of one epoch, put end to end, are the shuffled buckets
    put end to end. *)
Lemma iter_join (s : Sampler) :
  length (bucket_batch_sizes s) = length (bucket_sample_ids s) →
  Forall (λ size, 0 < size) (bucket_batch_sizes s) →
  batch_infos s
  = mjoin (imap (λ b (p : list nat * nat),
                   (λ i, (b, i)) <$> range_step (length p.1) p.2)
                (zip (bucket_sample_ids s) (bucket_batch_sizes s))) →
  mjoin (iter shuffle_batches shuffle_bucket s) ≡ₚ mjoin (bucket_sample_ids s).
Proof using shuffle_batches_perm shuffle_bucket_perm.
  intros Hlen Hpos Hinfos. unfold iter.
  rewrite shuffle_batches_perm, Hinfos.
  rewrite fmap_join, join_join, <- !list_fmap_compose.
  rewrite fmap_imap.
  rewrite <- (join_imap_Permutation shuffle_bucket (bucket_sample_ids s))
    by exact shuffle_bucket_perm.
  apply reflexive_eq. f_equal.
  transitivity (imap (λ b, shuffle_bucket b ∘ fst)
                     (zip (bucket_sample_ids s) (bucket_batch_sizes s)));
    [|rewrite <- (imap_fmap shuffle_bucket fst), fst_zip; [done|lia]].
  apply imap_ext. intros b [ids size] Hb. simpl.
  apply lookup_zip_with_Some in Hb as (ids' & size' & Heq & Hids & Hsize).
  injection Heq as <- <-.
  rewrite <- list_fmap_compose. unfold compose. simpl.
  rewrite list_lookup_imap, Hids, Hsize. simpl.
  eapply Forall_lookup_1 in Hpos; [|exact Hsize].
  assert (Hl : length ids = length (shuffle_bucket b ids))
    by (by rewrite shuffle_bucket_perm).
  unfold range_step. rewrite Hl.
  etransitivity; [|apply (join_slices (shuffle_bucket b ids) size
                                      (length (shuffle_bucket b ids)) 0); lia].
  done.
Qed.
End Epoch.

(** C8: in every epoch, whatever the shuffles, the batches the sampler
    yields contain every index of the dataset exactly once: put end to
    end they are a permutation of [0, ..., n-1], hence without duplicates
    and without omissions. *)
Theorem sampler_yields_each_sample_once
        (shuffle_batches : list (nat * nat) → list (nat * nat))
        (shuffle_bucket : nat → list nat → list nat)
        (lengths : list nat) (batch_size num_buckets : nat) (ratio : Q) :
  (∀ l, shuffle_batches l ≡ₚ l) →
  (∀ b l, shuffle_bucket b l ≡ₚ l) →
  0 < batch_size → 0 < num_buckets →
  let batches := iter shuffle_batches shuffle_bucket
                      (init lengths batch_size num_buckets ratio) in
  mjoin batches ≡ₚ seq 0 (length lengths) ∧
  NoDup (mjoin batches) ∧
  ∀ idx, idx < length lengths ↔ idx ∈ mjoin batches.
Proof.
  intros Hsb Hsk Hbs Hnb batches.
  assert (Hperm : mjoin batches ≡ₚ seq 0 (length lengths)).
  { unfold batches. rewrite iter_join; try done.
    - by apply init_bucket_sample_ids.
    - unfold init. cbn [bucket_batch_sizes bucket_sample_ids].
      by rewrite !length_fmap.
    - unfold init. cbn [bucket_batch_sizes]. apply Forall_fmap, Forall_true.
      intros key. by apply bucket_batch_size_pos. }
  split; [done|]. split.
  - rewrite Hperm. apply NoDup_seq.
  - intros idx. rewrite Hperm, elem_of_seq. lia.
Qed.
End SamplerFacts.

(** ** Labels *)

Lemma binarize_target_cases (target : option Q) :
  binarize_target target = 0%Z ∨ binarize_target target = 1%Z.
Proof.
  destruct target as [score|]; simpl; [|by left].
  destruct (Qle_bool (1 # 2) score); [by right|by left].
Qed.

(** C4: every training row gets the label 1 when its toxicity score is at
    least 0.5 and the label 0 otherwise (a score that parses to NaN compares
    false and gets 0); the labels that reach the training set are these, so
    each of them is 0 or 1. *)
Theorem target_binarized_at_half (tokenizer : string → list string) (vocab : Vocab)
        (train_df : list TrainCsvRow) :
  (∀ score : Q,
     (binarize_target (Some score) = 1%Z ↔ (1 # 2 <= score)%Q) ∧
     (binarize_target (Some score) = 0%Z ↔ (score < 1 # 2)%Q)) ∧
  binarize_target None = 0%Z ∧
  snd <$> train_data_raw train_df = (λ r, binarize_target (csv_target r)) <$> train_df ∧
  snd <$> train_dataset tokenizer vocab train_df
  = (λ r, binarize_target (csv_target r)) <$> train_df ∧
  Forall (λ x : list nat * Z, x.2 = 0%Z ∨ x.2 = 1%Z)
         (train_dataset tokenizer vocab train_df).
Proof.
  assert (Hraw : snd <$> train_data_raw train_df
                 = (λ r, binarize_target (csv_target r)) <$> train_df).
  { unfold train_data_raw. by rewrite <- list_fmap_compose. }
  assert (Hds : snd <$> train_dataset tokenizer vocab train_df
                = (λ r, binarize_target (csv_target r)) <$> train_df).
  { rewrite <- Hraw. unfold train_dataset. rewrite <- list_fmap_compose.
    apply list_fmap_ext. intros _ [text label] _. done. }
  split; [|split; [done|split; [done|split; [done|]]]].
  - intros score. simpl. destruct (Qle_bool (1 # 2) score) eqn:Hle.
    + apply Qle_bool_iff in Hle. split.
      * split; [by intros _|done].
      * split; [discriminate|]. intros Hlt. exfalso. by apply (Qlt_not_le _ _ Hlt).
    + assert (Hn : ¬ (1 # 2 <= score)%Q).
      { intros Hle'. apply Qle_bool_iff in Hle'. congruence. }
      split.
      * split; [discriminate|]. intros Hle'. exfalso. by apply Hn.
      * split; [|done]. intros _. by apply Qnot_le_lt.
  - apply Forall_fmap with (f := snd) (P := λ l : Z, l = 0%Z ∨ l = 1%Z).
    rewrite Hds. apply Forall_fmap, Forall_true. intros r. apply binarize_target_cases.
Qed.

(** ** Preprocessing *)
Section PreprocessFacts.
Variable tokenizer : string → list string.
Variable vocab : Vocab.

Lemma vocab_getitem_length (tokens : list string) :
  length (vocab_getitem vocab tokens) = length tokens.
Proof. unfold vocab_getitem. by rewrite length_fmap. Qed.

(** The clip bounds every preprocessed sequence. *)
Lemma preprocess_length_le (x : string * Z) :
  length (preprocess tokenizer vocab x).1 ≤ 500.
Proof.
  destruct x as [text label]. simpl.
  rewrite vocab_getitem_length. unfold length_clip. rewrite length_take. lia.
Qed.

Lemma test_dataset_Some (test_df : list TestCsvRow) :
  test_dataset tokenizer vocab test_df
  = Some ((λ r, vocab_getitem vocab
                  (length_clip (tokenizer (astype_str (test_comment_text r)))))
            <$> test_df).
Proof.
  unfold test_dataset, test_data_raw.
  induction test_df as [|r test_df IH]; [done|].
  rewrite !fmap_cons. cbn [mapM]. rewrite IH. done.
Qed.

(** C10: preprocessing gives no minimum length.  A text whose tokenization
    is empty comes out of [preprocess] and of [test_preprocess] as a
    sequence of length 0, the length recorded for it is that of an empty
    sequence, and every batch it is padded into carries the valid length 0
    for it: the pipeline does not establish valid length ≥ 1. *)
Theorem preprocess_no_minimum_length {A : Type} {F : Backend A}
        (text : string) (label : Z) :
  tokenizer text = [] →
  length (preprocess tokenizer vocab (text, label)).1 = 0 ∧
  test_preprocess tokenizer vocab [text] = Some [] ∧
  get_length (preprocess tokenizer vocab (text, label)) = f_float 0 ∧
  ∀ before after : list (list nat),
    (Pad (before ++ [] :: after)).2 !! length before = Some 0 ∧
    ¬ Forall (λ len, 1 ≤ len) (Pad (before ++ [] :: after)).2.
Proof.
  intros Htok. unfold test_preprocess, get_length. simpl. rewrite Htok.
  repeat split; try done.
  - rewrite list_lookup_fmap, list_lookup_middle; done.
  - intros Hall. rewrite Forall_lookup in Hall.
    specialize (Hall (length before) 0).
    rewrite list_lookup_fmap, list_lookup_middle in Hall by done.
    specialize (Hall eq_refl). lia.
Qed.
End PreprocessFacts.

(** ** Batching and prediction *)
Section BatchFacts.
(** The batches of the sequential sampler, put end to end, are the indices
    in order; no batch is empty. *)
Lemma BatchSampler_join (batch_size : nat) (sampler batch : list nat) :
  mjoin (BatchSampler batch_size sampler batch) = batch ++ sampler.
Proof.
  revert batch. induction sampler as [|i rest IH]; intros batch.
  { simpl. destruct batch; simpl; by rewrite ?app_nil_r. }
  cbn [BatchSampler]. destruct (length (batch ++ [i]) =? batch_size).
  - simpl. rewrite IH. simpl. by rewrite <- app_assoc.
  - rewrite IH. by rewrite <- app_assoc.
Qed.

Lemma BatchSampler_nonempty (batch_size : nat) (sampler batch : list nat) :
  Forall (λ b, b ≠ []) (BatchSampler batch_size sampler batch).
Proof.
  revert batch. induction sampler as [|i rest IH]; intros batch.
  { simpl. destruct batch; by repeat constructor. }
  cbn [BatchSampler]. destruct (length (batch ++ [i]) =? batch_size).
  - constructor; [|apply IH]. by destruct batch.
  - apply IH.
Qed.

Lemma omap_lookup_seq_app {X : Type} (pre l : list X) :
  omap (λ idx, (pre ++ l) !! idx) (seq (length pre) (length l)) = l.
Proof.
  revert pre. induction l as [|x l IH]; intros pre; [done|].
  cbn [length seq omap list_omap]. rewrite list_lookup_middle by done.
  f_equal. specialize (IH (pre ++ [x])).
  rewrite length_app, Nat.add_1_r, <- app_assoc in IH. exact IH.
Qed.

Lemma omap_lookup_seq {X : Type} (dataset : list X) :
  omap (λ idx, dataset !! idx) (seq 0 (length dataset)) = dataset.
Proof. apply (omap_lookup_seq_app [] dataset). Qed.

Lemma omap_join {X Y : Type} (f : X → option Y) (ls : list (list X)) :
  mjoin (omap f <$> ls) = omap f (mjoin ls).
Proof.
  induction ls as [|l ls IH]; [done|].
  rewrite fmap_cons. change (mjoin (l :: ls)) with (l ++ mjoin ls).
  rewrite omap_app, <- IH. done.
Qed.

(** The sample groups behind the batches of the sequential loader cover
    the dataset in order. *)
Lemma DataLoader_groups {X Y : Type} (dataset : list X) (batch_size : nat)
      (batchify : list X → Y) :
  ∃ groups : list (list X),
    DataLoader dataset batch_size batchify = batchify <$> groups ∧
    mjoin groups = dataset.
Proof.
  exists (omap (M := list) (λ idx : nat, dataset !! idx)
            <$> BatchSampler batch_size (seq 0 (length dataset)) []).
  split.
  - unfold DataLoader. by rewrite <- list_fmap_compose.
  - rewrite omap_join, BatchSampler_join. apply omap_lookup_seq.
Qed.

Lemma length_join_fmap {X Y : Type} (f : list X → list Y) (groups : list (list X)) :
  Forall (λ g, length (f g) = length g) groups →
  length (mjoin (f <$> groups)) = length (mjoin groups).
Proof.
  induction 1 as [|g groups Hg _ IH]; [done|].
  rewrite fmap_cons. simpl. rewrite !length_app. congruence.
Qed.

Lemma omap_lookup_length {X : Type} (m : list (list X)) (t : nat) :
  Forall (λ r, t < length r) m → length (omap (λ r, r !! t) m) = length m.
Proof.
  induction 1 as [|r m Hr _ IH]; [done|].
  destruct (lookup_lt_is_Some_2 r t Hr) as [x Hx].
  cbn [omap list_omap]. rewrite Hx. simpl. by rewrite IH.
Qed.

(** The padded batch is a rectangle: as many rows as samples, each as wide
    as the longest sample. *)
Lemma Pad_shape (samples : list (list nat)) :
  length (Pad samples).1 = length samples ∧
  length (Pad samples).2 = length samples ∧
  Forall (λ r, length r = max_list (length <$> samples)) (Pad samples).1.
Proof.
  unfold Pad. simpl. rewrite !length_fmap. repeat split.
  apply Forall_fmap, Forall_forall. intros s Hs. simpl.
  rewrite length_app, length_replicate.
  assert (length s ≤ max_list (length <$> samples)).
  { apply max_list_elem_of_le, list_elem_of_fmap. by exists s. }
  lia.
Qed.

Lemma transpose_shape {X : Type} (m : list (list X)) (M : nat) :
  Forall (λ r, length r = M) m →
  m ≠ [] →
  length (transpose m) = M ∧ Forall (λ row, length row = length m) (transpose m).
Proof.
  intros Hrows Hm. unfold transpose.
  assert (Hs : shape1 m = M).
  { destruct m as [|r m']; [done|]. simpl. by apply Forall_cons in Hrows as [? _]. }
  rewrite Hs, length_fmap, length_seq. split; [done|].
  apply Forall_fmap, Forall_forall. intros t Ht. simpl.
  apply elem_of_seq in Ht. apply omap_lookup_length.
  eapply Forall_impl; [exact Hrows|]. intros r Hr. simpl in Hr. lia.
Qed.
End BatchFacts.

Section PoolLength.
Context {A : Type} {F : Backend A}.
Import MeanPoolingLayer.

(** The pooled output has one row per sample as soon as the time axis is
    not empty and every time step has one entry per sample. *)
Lemma hybrid_forward_length (N : nat) (data : list (list (list A))) (vl : list A) :
  data ≠ [] → Forall (λ row, length row = N) data → length vl = N →
  length (hybrid_forward data vl) = N.
Proof.
  intros Hdata Hrows Hvl. unfold hybrid_forward, broadcast_div, expand_dims.
  rewrite length_zip_with, length_fmap, Hvl.
  assert (Hmask : Forall (λ row, length row = N) (SequenceMask data vl)).
  { unfold SequenceMask. apply Forall_lookup. intros t mrow Ht.
    rewrite list_lookup_imap in Ht.
    destruct (data !! t) as [row|] eqn:Hrow; simplify_eq/=.
    eapply Forall_lookup_1 in Hrows; [|exact Hrow]. simpl in Hrows.
    rewrite length_zip_with. lia. }
  assert (Hne : SequenceMask data vl ≠ []).
  { unfold SequenceMask. intros Hnil. apply (f_equal length) in Hnil.
    rewrite length_imap in Hnil. by destruct data. }
  destruct (SequenceMask data vl) as [|row0 rest]; [done|].
  unfold sum_axis0. pose proof Hmask as Hmask'.
  apply Forall_cons in Hmask' as [Hrow0 _].
  rewrite foldl_zip_with_length; rewrite length_fmap; [lia|].
  eapply Forall_impl; [exact Hmask|]. intros r Hr. simpl in *. lia.
Qed.

Lemma hybrid_forward_nil (data : list (list (list A))) :
  hybrid_forward data [] = [].
Proof.
  unfold hybrid_forward, broadcast_div, expand_dims. simpl.
  by destruct (sum_axis0 (SequenceMask data [])).
Qed.
End PoolLength.

Section PredictionFacts.
Context {A : Type} {F : Backend A}.
Variable encoder : list (list A) → list (list (list A)) → list (list (list A)).
Variable sigmoid : A → A.

(** The encoder works along the time axis of a time-major tensor and
    keeps its time and batch dimensions. *)
Hypothesis encoder_shape : ∀ w x N,
  Forall (λ row, length row = N) x →
  length (encoder w x) = length x ∧ Forall (λ row, length row = N) (encoder w x).

Lemma embedding_shape (weight : list (list A)) (data : list (list nat)) (N : nat) :
  Forall (λ row, length row = N) data →
  length (SentimentNet.embedding weight data) = length data ∧
  Forall (λ row, length row = N) (SentimentNet.embedding weight data).
Proof.
  intros Hrows. unfold SentimentNet.embedding. rewrite length_fmap. split; [done|].
  apply Forall_fmap. eapply Forall_impl; [exact Hrows|].
  intros row Hrow. simpl. by rewrite length_fmap.
Qed.

(** The network returns one row per sample of a padded batch whose samples
    all have at least one token. *)
Lemma net_call_length (p : SentimentNet.Params) (samples : list (list nat)) :
  Forall (λ s, s ≠ []) samples →
  length (net_call encoder p (Pad samples)) = length samples.
Proof using encoder_shape.
  intros Hne. destruct (Pad_shape samples) as (Hd & Hl & Hrows).
  unfold net_call. destruct (Pad samples) as [data lens] eqn:HPad. simpl in *.
  unfold SentimentNet.hybrid_forward, SentimentNet.output, SentimentNet.Dense,
    SentimentNet.Dropout.
  rewrite length_fmap.
  destruct samples as [|s0 samples'].
  { destruct lens; [|done]. simpl. by rewrite hybrid_forward_nil. }
  assert (Hdne : data ≠ []) by (by destruct data).
  destruct (transpose_shape data _ Hrows Hdne) as [HT HN].
  destruct (embedding_shape (SentimentNet.embedding_weight p) _ _ HN) as [HeT HeN].
  destruct (encoder_shape (SentimentNet.encoder_weight p) _ _ HeN) as [HcT HcN].
  rewrite (hybrid_forward_length (length data)); [lia| |done|by rewrite length_fmap; lia].
  intros Hnil. apply (f_equal length) in Hnil.
  rewrite HcT, HeT, HT in Hnil. simpl in Hnil.
  apply Forall_cons in Hne as [Hs0 _]. destruct s0; [done|]. simpl in Hnil. lia.
Qed.

Lemma net_call_singletons (p : SentimentNet.Params)
      (batch : list (list nat) * list nat) :
  Forall (λ r, ∃ x, r = [x]) (net_call encoder p batch).
Proof.
  destruct batch as [data lens]. unfold net_call, SentimentNet.hybrid_forward,
    SentimentNet.output, SentimentNet.Dense.
  apply Forall_fmap, Forall_true. intros v. simpl. eauto.
Qed.

Lemma inference_results_join (p : SentimentNet.Params)
      (loader : list (list (list nat) * list nat)) :
  inference_results encoder p loader = mjoin (net_call encoder p <$> loader).
Proof.
  unfold inference_results.
  assert (Hgen : ∀ acc,
    foldl (λ results batch, results ++ net_call encoder p batch) acc loader
    = acc ++ mjoin (net_call encoder p <$> loader)).
  { induction loader as [|b loader IH]; intros acc; simpl.
    - by rewrite app_nil_r.
    - rewrite IH. by rewrite <- app_assoc. }
  apply (Hgen []).
Qed.

Lemma predictions_Some (results : list (list A)) :
  Forall (λ r, ∃ x, r = [x]) results →
  ∃ preds, predictions sigmoid results = Some preds ∧ length preds = length results.
Proof.
  unfold predictions. induction 1 as [|r results [x ->] _ (preds & IH & Hlen)].
  - by exists [].
  - exists (sigmoid x :: preds). cbn [mapM]. rewrite IH. simpl. by rewrite Hlen.
Qed.

(** The rows of a submission are the ids of the frame zipped with the
    predictions, whatever the network computes. *)
Lemma submission_ids (tokenizer : string → list string) (vocab : Vocab)
      (batch_size : nat) (p : SentimentNet.Params) (test_df : list TestCsvRow)
      (rows : list (SubmissionRow A)) :
  submission encoder sigmoid tokenizer vocab batch_size p test_df = Some rows →
  length rows = length test_df ∧ sub_id <$> rows = id <$> test_df.
Proof.
  unfold submission. intros Hsub.
  destruct (test_dataset tokenizer vocab test_df) as [dataset|]; [|done].
  simpl in Hsub.
  destruct (predictions sigmoid _) as [preds|]; [|done]. simpl in Hsub.
  unfold from_dict in Hsub. case_bool_decide as Hlen; [|done].
  injection Hsub as <-. rewrite length_fmap in Hlen. split.
  - rewrite length_zip_with, length_fmap. lia.
  - rewrite fmap_zip_with_l; [done|done|]. rewrite length_fmap. lia.
Qed.

Lemma submission_Some (tokenizer : string → list string) (vocab : Vocab)
      (batch_size : nat) (p : SentimentNet.Params) (test_df : list TestCsvRow) :
  Forall (λ r, tokenizer (astype_str (test_comment_text r)) ≠ []) test_df →
  ∃ rows, submission encoder sigmoid tokenizer vocab batch_size p test_df = Some rows.
Proof using encoder_shape.
  intros Htok. unfold submission. rewrite test_dataset_Some. simpl.
  set (dataset := (λ r, vocab_getitem vocab
                          (length_clip (tokenizer (astype_str (test_comment_text r)))))
                    <$> test_df).
  assert (Hne : Forall (λ s, s ≠ []) dataset).
  { unfold dataset. apply Forall_fmap. eapply Forall_impl; [exact Htok|].
    intros r Hr. simpl. intros Hnil. apply (f_equal length) in Hnil.
    rewrite vocab_getitem_length in Hnil. unfold length_clip in Hnil.
    rewrite length_take in Hnil.
    simpl in Hr.
    destruct (tokenizer (astype_str (test_comment_text r))); [done|].
    simpl in Hnil. lia. }
  destruct (DataLoader_groups dataset batch_size test_batchify_fn)
    as (groups & Hloader & Hgroups).
  rewrite Hloader, inference_results_join, <- list_fmap_compose.
  destruct (predictions_Some
              (mjoin ((net_call encoder p ∘ test_batchify_fn) <$> groups)))
    as (preds & Hpreds & Hlen).
  { apply Forall_forall. intros r Hr. apply list_elem_of_join in Hr as (out & Hr & Hout).
    apply list_elem_of_fmap in Hout as (g & -> & _).
    pose proof (net_call_singletons p (test_batchify_fn g)) as Hs.
    rewrite Forall_forall in Hs. by apply Hs. }
  rewrite Hpreds. simpl.
  assert (Hcount : length preds = length test_df).
  { rewrite Hlen, length_join_fmap.
    - rewrite Hgroups. unfold dataset. by rewrite length_fmap.
    - apply Forall_forall. intros g Hg. simpl. unfold test_batchify_fn.
      apply net_call_length. apply Forall_forall. intros s Hs.
      rewrite Forall_forall in Hne. apply Hne. rewrite <- Hgroups.
      apply list_elem_of_join. eauto. }
  unfold from_dict. rewrite bool_decide_true by (by rewrite length_fmap).
  eauto.
Qed.

(** C7: a submission has exactly one row per row of the test frame, in the
    order of the frame, the id of each row being the id of the test row at
    the same position; and a submission is produced when every test
    comment has at least one token. *)
Theorem submission_rows_follow_test_rows (tokenizer : string → list string)
        (vocab : Vocab) (batch_size : nat) (p : SentimentNet.Params)
        (test_df : list TestCsvRow) :
  (∀ rows,
     submission encoder sigmoid tokenizer vocab batch_size p test_df = Some rows →
     length rows = length test_df ∧
     sub_id <$> rows = id <$> test_df ∧
     ∀ i row, rows !! i = Some row → id <$> test_df !! i = Some (sub_id row)) ∧
  (Forall (λ r, tokenizer (astype_str (test_comment_text r)) ≠ []) test_df →
   ∃ rows,
     submission encoder sigmoid tokenizer vocab batch_size p test_df = Some rows).
Proof using encoder_shape.
  split; [|apply submission_Some].
  intros rows Hsub. destruct (submission_ids _ _ _ _ _ _ Hsub) as [Hlen Hids].
  split; [done|]. split; [done|].
  intros i row Hi. rewrite <- list_lookup_fmap, <- Hids, list_lookup_fmap, Hi. done.
Qed.
End PredictionFacts.

(** ** Saving and loading *)
Section RoundTrip.
Context {A : Type} {F : Backend A}.
Variable encoder : list (list A) → list (list (list A)) → list (list (list A)).
Import ParameterFiles.

(** C6: whatever the parameters of the network are when they are saved,
    and whatever the network holds when the file is loaded back, loading
    succeeds and the loaded network gives, on every token-id batch and
    valid-length vector, the output the saved network gives. *)
Theorem save_load_same_outputs (filename : string)
        (net other : @SentimentNet.Params A)
        (files : gmap string (@SentimentNet.Params A)) :
  ∃ loaded,
    load_parameters filename other (save_parameters filename net files) = Some loaded ∧
    ∀ data valid_length,
      SentimentNet.hybrid_forward encoder loaded data valid_length
      = SentimentNet.hybrid_forward encoder net data valid_length.
Proof.
  exists net. split; [|done].
  unfold load_parameters, save_parameters. apply lookup_insert_eq.
Qed.
End RoundTrip.

(** ** The sigmoid *)
Section Sigmoid.
Local Open Scope R_scope.

Lemma sigmoid_denominator (x : R) : 1 < 1 + exp (- x).
Proof. pose proof (exp_pos (- x)). lra. Qed.

Lemma sigmoid_bounds (x : R) : 0 < sigmoid x < 1.
Proof.
  pose proof (sigmoid_denominator x) as Hd. unfold sigmoid.
  split.
  - apply Rdiv_lt_0_compat; lra.
  - apply (Rmult_lt_reg_r (1 + exp (- x))); [lra|].
    unfold Rdiv. rewrite Rmult_assoc, Rinv_l by lra. lra.
Qed.

(** C9: the sigmoid of every logit is a probability in the closed
    interval [0, 1], so is every entry of the prediction list, and the
    logit 0 is sent to exactly 1/2. *)
Theorem sigmoid_probability :
  (∀ logit : R, 0 <= sigmoid logit <= 1) ∧
  (∀ results : list (list R),
     Forall (λ p, 0 <= p <= 1) (default [] (predictions sigmoid results))) ∧
  sigmoid 0 = 1 / 2.
Proof.
  assert (Hrange : ∀ logit : R, 0 <= sigmoid logit <= 1).
  { intros logit. pose proof (sigmoid_bounds logit). lra. }
  split; [done|]. split.
  - intros results. unfold predictions.
    destruct (mapM _ results) as [preds|] eqn:Hpreds; [|by constructor].
    simpl. apply mapM_Some in Hpreds.
    induction Hpreds as [|r q results preds Hr _ IH]; constructor; [|done].
    destruct r as [|x r]; simplify_eq/=. apply Hrange.
  - unfold sigmoid. rewrite Ropp_0, exp_0. lra.
Qed.
End Sigmoid.

(** ** The training log *)
Section TrainingLog.
Context {A : Type} {F : Backend A}.
Variable P : Type.
Variable train_step : P → (list (list nat) * list nat) * list Z → A * P.

Lemma run_batches_app (log_interval epoch total : nat) (st : LoopState P) (i : nat)
      (l1 l2 : list ((list (list nat) * list nat) * list Z)) :
  run_batches P train_step log_interval epoch total st i (l1 ++ l2)
  = run_batches P train_step log_interval epoch total
                (run_batches P train_step log_interval epoch total st i l1)
                (i + length l1) l2.
Proof.
  revert st i. induction l1 as [|b l1 IH]; intros st i; simpl.
  - by rewrite Nat.add_0_r.
  - rewrite IH. by replace (i + S (length l1)) with (S i + length l1) by lia.
Qed.

(** What a log line reports: from a state [st] at batch [i], after batches
    that do not reach the log point and one that does, one line is printed;
    its average is the sum of the batch losses on top of the accumulator,
    divided by the accumulated [data.shape[1]], the padded widths of the
    batches; the three interval accumulators are cleared. *)
Lemma run_batches_log_point (log_interval epoch total : nat)
      (batches : list ((list (list nat) * list nat) * list Z))
      (last : (list (list nat) * list nat) * list Z)
      (st : LoopState P) (i : nat) :
  (∀ m, m < length batches → (i + m + 1) mod log_interval ≠ 0) →
  (i + length batches + 1) mod log_interval = 0 →
  let st' := run_batches P train_step log_interval epoch total st i
                         (batches ++ [last]) in
  printed P st'
  = printed P st ++
    [ {| line_epoch := epoch; line_batch := i + length batches + 1;
         line_total := total;
         line_avg_loss :=
           f_div (foldl f_add (log_interval_L (stats P st))
                        (step_losses P train_step (net_state P st) (batches ++ [last])))
                 (f_float (log_interval_sent_num (stats P st)
                           + sum_list ((λ b, shape1 b.1.1) <$> (batches ++ [last])))) |} ]
  ∧ log_interval_L (stats P st') = f_zero
  ∧ log_interval_sent_num (stats P st') = 0
  ∧ log_interval_wc (stats P st') = 0.
Proof.
  revert st i. induction batches as [|b batches IH]; intros st i Hquiet Hlog; cbv zeta.
  - simpl in *. rewrite Nat.add_0_r in Hlog.
    unfold loop_body. destruct last as [[data len] label].
    destruct (train_step (net_state P st) (data, len, label)) as [L net'] eqn:Hstep.
    rewrite Hlog. simpl. rewrite !Nat.add_0_r. repeat split.
  - assert (Hb : ((i + 1) mod log_interval =? 0) = false).
    { apply Nat.eqb_neq. specialize (Hquiet 0). simpl in Hquiet.
      rewrite Nat.add_0_r in Hquiet. apply Hquiet. lia. }
    destruct b as [[data len] label].
    destruct (train_step (net_state P st) (data, len, label)) as [L net'] eqn:Hstep.
    cbn [app run_batches step_losses]. rewrite Hstep.
    unfold loop_body at 1 2 3 4. rewrite Hstep, Hb.
    match goal with
    | |- context [run_batches _ _ _ _ _ ?st1 _ _] =>
        destruct (IH st1 (S i)) as (Hp & HL & Hs & Hw)
    end.
    { intros m Hm. specialize (Hquiet (S m)). simpl in Hquiet.
      replace (S i + m + 1) with (i + S m + 1) by lia. apply Hquiet. lia. }
    { simpl in Hlog. by replace (S i + length batches + 1)
        with (i + S (length batches) + 1) by lia. }
    rewrite Hp, HL, Hs, Hw. repeat split. simpl.
    replace (S (i + length batches + 1)) with (i + S (length batches) + 1) by lia.
    by rewrite <- (Nat.add_assoc (log_interval_sent_num (stats P st))).
Qed.
End TrainingLog.

(** C3, at a batch of two samples padded to three positions, with the log
    interval 1 and the batch loss 6: the batch has two samples and the padded
    width 3; the one log line printed reports 6 / 3, the accumulated loss
    divided by the padded width, and not 6 / 2, the accumulated loss divided
    by the number of samples; the accumulators are reset after the line. *)
Theorem training_log_divides_by_padded_width :
  let st := train unit demo_train_step 1 1 (λ _, [demo_train_batch]) tt in
  shape0 demo_train_batch.1.1 = 2 ∧
  shape1 demo_train_batch.1.1 = 3 ∧
  (∃ line, printed unit st = [line] ∧
           (line_avg_loss line == 6 / 3)%Q ∧ ¬ (line_avg_loss line == 6 / 2)%Q) ∧
  log_interval_L (stats unit st) = 0%Q ∧
  log_interval_sent_num (stats unit st) = 0.
Proof.
  cbv zeta. split; [reflexivity|]. split; [reflexivity|]. split.
  - eexists. split; [vm_compute; reflexivity|]. split.
    + vm_compute. reflexivity.
    + vm_compute. discriminate.
  - split; vm_compute; reflexivity.
Qed.

(** ** The model at work on small inputs *)

Example bucket_keys_run :
  FixedBucketSampler.bucket_keys [0; 500; 37; 120] 10
  = [50; 100; 150; 200; 250; 300; 350; 400; 450; 500].
Proof. reflexivity. Qed.

Example bucket_batch_size_run :
  FixedBucketSampler.bucket_batch_size 128 (1 # 5) 500 <$> [50; 100; 150; 500]
  = [256; 128; 128; 128].
Proof. vm_compute. reflexivity. Qed.

Example sampler_epoch_run :
  FixedBucketSampler.iter reverse (λ _ l, reverse l)
    (FixedBucketSampler.init [3; 1; 4; 1; 5; 9; 2; 6; 5; 3; 5] 2 3 (1 # 5))
  = [[5]; [7]; [0]; [2; 1]; [4; 3]; [8; 6]; [10; 9]].
Proof. vm_compute. reflexivity. Qed.

Example test_dataloader_run :
  DataLoader [[1; 2; 3; 4]; [0]; [3; 1]] 2 test_batchify_fn
  = [([[1; 2; 3; 4]; [0; 0; 0; 0]], [4; 1]); ([[3; 1]], [2])].
Proof. reflexivity. Qed.

Example submission_run :
  submission demo_encoder demo_squash demo_tokenizer demo_vocab 2 demo_params demo_test_df
  = Some [ {| sub_id := 7000000; sub_prediction := 1024 # 3072 |};
           {| sub_id := 7000001; sub_prediction := 8 # 12 |};
           {| sub_id := 7000002; sub_prediction := 64 # 192 |} ].
Proof. vm_compute. reflexivity. Qed.

(** A valid length 0 makes the instrumented layer report the division. *)
Example zero_length_division :
  MeanPoolingLayer.hybrid_forward_checked demo_features [2; 0]%Q = None.
Proof. vm_compute. reflexivity. Qed.

Lemma sampler_yields_each_sample_once_witness :
  let batches :=
    FixedBucketSampler.iter reverse (λ _ l, reverse l)
      (FixedBucketSampler.init [3; 1; 4; 1; 5; 9; 2; 6; 5; 3; 5] 2 3 (1 # 5)) in
  mjoin batches ≡ₚ seq 0 (length [3; 1; 4; 1; 5; 9; 2; 6; 5; 3; 5]) ∧
  NoDup (mjoin batches) ∧
  ∀ idx, idx < length [3; 1; 4; 1; 5; 9; 2; 6; 5; 3; 5] ↔ idx ∈ mjoin batches.
Proof.
  apply (sampler_yields_each_sample_once reverse (λ _ l, reverse l)
           [3; 1; 4; 1; 5; 9; 2; 6; 5; 3; 5] 2 3 (1 # 5)).
  - intros l. apply reverse_Permutation.
  - intros b l. apply reverse_Permutation.
  - lia.
  - lia.
Defined.

Lemma preprocess_no_minimum_length_witness :
  length (preprocess demo_tokenizer demo_vocab (""%string, 1%Z)).1 = 0 ∧
  test_preprocess demo_tokenizer demo_vocab [""%string] = Some [] ∧
  get_length (F := Q_backend) (preprocess demo_tokenizer demo_vocab (""%string, 1%Z))
  = f_float 0 ∧
  ∀ before after : list (list nat),
    (Pad (before ++ [] :: after)).2 !! length before = Some 0 ∧
    ¬ Forall (λ len, 1 ≤ len) (Pad (before ++ [] :: after)).2.
Proof.
  apply (preprocess_no_minimum_length demo_tokenizer demo_vocab ""%string 1%Z).
  reflexivity.
Defined.

Lemma submission_rows_follow_test_rows_witness :
  ∃ rows,
    submission demo_encoder demo_squash demo_tokenizer demo_vocab 2 demo_params
               demo_test_df = Some rows ∧
    length rows = 3 ∧
    sub_id <$> rows = [7000000; 7000001; 7000002]%Z.
Proof.
  destruct (submission_rows_follow_test_rows
              demo_encoder demo_squash
              (λ w x N Hx, conj eq_refl Hx)
              demo_tokenizer demo_vocab 2 demo_params demo_test_df)
    as [Hrows Hproduced].
  destruct Hproduced as [rows Hsub].
  { repeat constructor; vm_compute; discriminate. }
  exists rows. destruct (Hrows rows Hsub) as (Hlen & Hids & _).
  split; [exact Hsub|]. split; [exact Hlen|exact Hids].
Defined.

(** * Further properties *)

(** ** The training loop: what the bookkeeping does and does not touch *)
Section TrainingFacts.
Context {A : Type} {F : Backend A}.
Variable P : Type.
Variable train_step : P → (list (list nat) * list nat) * list Z → A * P.



(** The lines one step adds to the output. *)
Lemma loop_body_printed (log_interval epoch total : nat) (st : LoopState P) (i : nat)
      (batch : (list (list nat) * list nat) * list Z) :
  ∃ lines,
    printed P (loop_body P train_step log_interval epoch total st i batch)
    = printed P st ++ lines ∧
    line_batch <$> lines = filter (λ b, b mod log_interval = 0) [i + 1] ∧
    Forall (λ l, line_epoch l = epoch ∧ line_total l = total) lines.
Proof.
  unfold loop_body. destruct batch as [[data len] label].
  destruct (train_step (net_state P st) (data, len, label)) as [L net'].
  rewrite filter_cons, filter_nil.
  destruct ((i + 1) mod log_interval =? 0) eqn:Hlog.
  - apply Nat.eqb_eq in Hlog. rewrite decide_True by done.
    eexists [_]. simpl. by repeat constructor.
  - apply Nat.eqb_neq in Hlog. rewrite decide_False by done.
    exists []. simpl. by rewrite app_nil_r.
Qed.

(** A line is printed at the batches whose number, counted from 1, is a
    multiple of the log interval, and at no other. *)
Lemma run_batches_printed (log_interval epoch total : nat)
      (batches : list ((list (list nat) * list nat) * list Z))
      (st : LoopState P) (i : nat) :
  ∃ lines,
    printed P (run_batches P train_step log_interval epoch total st i batches)
    = printed P st ++ lines ∧
    line_batch <$> lines
    = filter (λ b, b mod log_interval = 0) (seq (i + 1) (length batches)) ∧
    Forall (λ l, line_epoch l = epoch ∧ line_total l = total) lines.
Proof.
  revert st i. induction batches as [|b batches IH]; intros st i.
  { exists []. simpl. by rewrite app_nil_r. }
  cbn [run_batches length seq].
  destruct (loop_body_printed log_interval epoch total st i b) as (l1 & Hp1 & Hb1 & Hf1).
  destruct (IH (loop_body P train_step log_interval epoch total st i b) (S i))
    as (l2 & Hp2 & Hb2 & Hf2).
  exists (l1 ++ l2). split; [|split].
  - rewrite Hp2, Hp1. by rewrite <- app_assoc.
  - rewrite fmap_app, Hb1, Hb2.
    replace (S i + 1) with (S (i + 1)) by lia.
    change (i + 1 :: seq (S (i + 1)) (length batches))
      with ([i + 1] ++ seq (S (i + 1)) (length batches)).
    by rewrite filter_app.
  - by apply Forall_app.
Qed.

Lemma filter_none {X : Type} (Q : X → Prop) `{∀ x, Decision (Q x)} (l : list X) :
  (∀ x, x ∈ l → ¬ Q x) → filter Q l = [].
Proof.
  induction l as [|x l IH]; intros Hl; [done|].
  rewrite filter_cons_False by (apply Hl; left).
  apply IH. intros y Hy. apply Hl. by right.
Qed.

(** The multiples of [k] among [1, ..., n]. *)
Lemma filter_multiples (k n : nat) :
  0 < k →
  filter (λ b, b mod k = 0) (seq 1 n) = (λ j, j * k) <$> seq 1 (n / k).
Proof.
  intros Hk. induction n as [|n IH]; [by rewrite Nat.Div0.div_0_l|].
  rewrite seq_S, filter_app, IH. simpl.
  pose proof (Nat.div_mod_eq (S n) k) as HS.
  pose proof (Nat.div_mod_eq n k) as Hn.
  pose proof (Nat.mod_upper_bound (S n) k) as HSlt.
  pose proof (Nat.mod_upper_bound n k) as Hnlt.
  rewrite filter_cons, filter_nil.
  destruct (decide (S n mod k = 0)) as [Hz|Hnz].
  - assert (Hq : S n / k = S (n / k)) by nia.
    rewrite Hq, seq_S, fmap_app. simpl. do 2 f_equal. nia.
  - assert (Hq : S n / k = n / k) by nia.
    rewrite Hq. by rewrite app_nil_r.
Qed.





Lemma train_epoch_lines (log_interval : nat)
      (train_dataloader : nat → list ((list (list nat) * list nat) * list Z))
      (st : LoopState P) (epoch : nat) :
  0 < log_interval →
  ∃ lines,
    printed P (train_epoch P train_step log_interval train_dataloader st epoch)
    = printed P st ++ lines ∧
    line_batch <$> lines
    = (λ j, j * log_interval)
        <$> seq 1 (length (train_dataloader epoch) / log_interval) ∧
    Forall (λ l, line_epoch l = epoch ∧
                 line_total l = length (train_dataloader epoch)) lines.
Proof.
  intros Hk. unfold train_epoch.
  destruct (run_batches_printed log_interval epoch (length (train_dataloader epoch))
              (train_dataloader epoch)
              {| net_state := net_state P st; stats := init_stats;
                 printed := printed P st |} 0)
    as (lines & Hp & Hb & Hf).
  simpl in Hp, Hb. rewrite filter_multiples in Hb by done.
  by exists lines.
Qed.

(** X3: the log lines of an epoch.  With a positive log interval [k] and
    [n] batches, an epoch prints [n / k] lines, for the batches [k], [2k],
    ..., in this order; every line carries the epoch number and the number
    of batches of the loader. *)
Theorem train_epoch_log_lines (log_interval : nat)
        (train_dataloader : nat → list ((list (list nat) * list nat) * list Z))
        (st : LoopState P) (epoch : nat) :
  0 < log_interval →
  ∃ lines,
    printed P (train_epoch P train_step log_interval train_dataloader st epoch)
    = printed P st ++ lines ∧
    length lines = length (train_dataloader epoch) / log_interval ∧
    line_batch <$> lines
    = (λ j, j * log_interval)
        <$> seq 1 (length (train_dataloader epoch) / log_interval) ∧
    Forall (λ l, line_epoch l = epoch ∧
                 line_total l = length (train_dataloader epoch)) lines.
Proof.
  intros Hk.
  destruct (train_epoch_lines log_interval train_dataloader st epoch Hk)
    as (lines & Hp & Hb & Hf).
  exists lines. split; [done|]. split; [|done].
  apply (f_equal length) in Hb. by rewrite !length_fmap, length_seq in Hb.
Qed.

Lemma fmap_const_replicate {X Y : Type} (f : X → Y) (c : Y) (l : list X) :
  Forall (λ x, f x = c) l → f <$> l = replicate (length l) c.
Proof. induction 1 as [|x l Hx _ IH]; [done|]. rewrite fmap_cons, Hx, IH. done. Qed.

(** X5: the whole log of a training run.  With a positive log interval
    [k], training prints, epoch after epoch, one line for each of the
    batches [k], [2k], ... of the epoch, tagged with the number of the
    epoch and the number of batches of its loader, and nothing else. *)
Theorem train_log (epochs log_interval : nat)
        (train_dataloader : nat → list ((list (list nat) * list nat) * list Z))
        (net0 : P) :
  0 < log_interval →
  let log := printed P (train P train_step epochs log_interval train_dataloader net0) in
  let lines_of epoch := length (train_dataloader epoch) / log_interval in
  line_epoch <$> log
  = mjoin ((λ epoch, replicate (lines_of epoch) epoch) <$> seq 0 epochs) ∧
  line_batch <$> log
  = mjoin ((λ epoch, (λ j, j * log_interval) <$> seq 1 (lines_of epoch))
             <$> seq 0 epochs) ∧
  line_total <$> log
  = mjoin ((λ epoch, replicate (lines_of epoch) (length (train_dataloader epoch)))
             <$> seq 0 epochs).
Proof.
  intros Hk. cbv zeta. unfold train.
  assert (Hgen : ∀ (es : list nat) (st : LoopState P),
    ∃ lines,
      printed P (foldl (train_epoch P train_step log_interval train_dataloader) st es)
      = printed P st ++ lines ∧
      line_epoch <$> lines
      = mjoin ((λ epoch, replicate (length (train_dataloader epoch) / log_interval) epoch)
                 <$> es) ∧
      line_batch <$> lines
      = mjoin ((λ epoch, (λ j, j * log_interval)
                           <$> seq 1 (length (train_dataloader epoch) / log_interval))
                 <$> es) ∧
      line_total <$> lines
      = mjoin ((λ epoch, replicate (length (train_dataloader epoch) / log_interval)
                                   (length (train_dataloader epoch)))
                 <$> es)).
  { induction es as [|e es IH]; intros st.
    { exists []. simpl. by rewrite app_nil_r. }
    cbn [foldl].
    destruct (train_epoch_lines log_interval train_dataloader st e Hk)
      as (l1 & Hp1 & Hb1 & Hf1).
    destruct (IH (train_epoch P train_step log_interval train_dataloader st e))
      as (l2 & Hp2 & He2 & Hb2 & Ht2).
    assert (Hlen : length l1 = length (train_dataloader e) / log_interval).
    { apply (f_equal length) in Hb1. by rewrite !length_fmap, length_seq in Hb1. }
    exists (l1 ++ l2). rewrite Hp2, Hp1, <- app_assoc.
    rewrite !fmap_app, !fmap_cons, He2, Hb2, Ht2, Hb1.
    rewrite (fmap_const_replicate line_epoch e l1)
      by (eapply Forall_impl; [exact Hf1|]; by intros l [? ?]).
    rewrite (fmap_const_replicate line_total (length (train_dataloader e)) l1)
      by (eapply Forall_impl; [exact Hf1|]; by intros l [? ?]).
    rewrite Hlen. done. }
  destruct (Hgen (seq 0 epochs)
                 {| net_state := net0; stats := init_stats; printed := [] |})
    as (lines & Hp & He & Hb & Ht).
  simpl in Hp. rewrite Hp. done.
Qed.

(** X4: what follows the last log point is never reported.  The output of
    a run of [n] batches from the start of an epoch is the output of the
    run of its first [(n / k) * k] batches: the losses of the batches after
    the last multiple of the log interval are accumulated and dropped. *)
Theorem trailing_batches_unreported (log_interval epoch total : nat)
        (batches : list ((list (list nat) * list nat) * list Z))
        (st : LoopState P) :
  0 < log_interval →
  printed P (run_batches P train_step log_interval epoch total st 0 batches)
  = printed P (run_batches P train_step log_interval epoch total st 0
                           (take (length batches / log_interval * log_interval) batches)).
Proof.
  intros Hk.
  set (m := length batches / log_interval * log_interval).
  assert (Hm : m ≤ length batches).
  { unfold m. pose proof (Nat.div_mod_eq (length batches) log_interval). nia. }
  rewrite <- (take_drop m batches) at 1. rewrite run_batches_app.
  destruct (run_batches_printed log_interval epoch total (drop m batches)
              (run_batches P train_step log_interval epoch total st 0 (take m batches))
              (0 + length (take m batches)))
    as (lines & Hp & Hb & _).
  rewrite Hp. rewrite length_take, length_drop in Hb.
  replace (0 + m `min` length batches + 1) with (S m) in Hb by lia.
  assert (Hnil : filter (λ b, b mod log_interval = 0) (seq (S m) (length batches - m)) = []).
  { apply filter_none. intros b Hb' Hmod. apply elem_of_seq in Hb'.
    pose proof (Nat.div_mod_eq (length batches) log_interval) as Hn.
    assert (Hlt : length batches mod log_interval < log_interval)
      by (apply Nat.mod_upper_bound; lia).
    pose proof (Nat.div_mod_eq b log_interval) as Hbq.
    rewrite Hmod in Hbq. unfold m in *.
    clear Hp Hb lines.
    remember (length batches) as n eqn:En.
    remember (n / log_interval) as q eqn:Eq.
    remember (n mod log_interval) as r eqn:Er.
    remember (b / log_interval) as qb eqn:Eqb.
    clear En Eq Er Eqb.
    destruct (decide (qb ≤ q)) as [Hle|Hgt].
    - assert (log_interval * qb ≤ log_interval * q) by (apply Nat.mul_le_mono_l; lia).
      lia.
    - assert (log_interval * S q ≤ log_interval * qb) by (apply Nat.mul_le_mono_l; lia).
      rewrite Nat.mul_succ_r in *. lia. }
  rewrite Hnil in Hb. apply fmap_nil_inv in Hb. subst lines. by rewrite app_nil_r.
Qed.
End TrainingFacts.

(** ** Mean pooling: locality and the zero length *)
Section MeanPoolingMore.
Context {A : Type} {F : Backend A}.
Import MeanPoolingLayer.

Lemma sum_axis0_lookup T N C (x : list (list (list A))) n :
  0 < T → has_shape3 T N C x → n < N →
  sum_axis0 x !! n = Some (vsum C (sample_features n x)).
Proof.
  intros HT [HlenT Hrows] Hn.
  destruct x as [|row0 rest]; [simpl in *; lia|].
  unfold sum_axis0. pose proof Hrows as Hrows'.
  apply Forall_cons in Hrows' as [[Hr0N Hr0C] _].
  destruct (lookup_lt_is_Some_2 row0 n) as [feat0 Hfeat0]; [lia|].
  erewrite foldl_zip_with_lookup; cycle 1.
  { rewrite list_lookup_fmap, Hfeat0. done. }
  { rewrite length_fmap. eapply Forall_impl; [exact Hrows|]. intros r [Hr _]. simpl. lia. }
  unfold vsum, sample_features. rewrite zeros_like_replicate. do 3 f_equal.
  eapply Forall_lookup_1 in Hr0C; [exact Hr0C|exact Hfeat0].
Qed.

(** X6: a valid length that is zero is a zero divisor.  For a well-shaped
    batch with at least one time step and one feature, as soon as one
    sample has a valid length that is zero the instrumented layer reports
    the division by zero. *)
Theorem mean_pool_zero_length_reported T N C (data : list (list (list A)))
        (vl : list A) n len :
  0 < T → 0 < C → has_shape3 T N C data → length vl = N →
  vl !! n = Some len → f_is_zero len = true →
  hybrid_forward_checked data vl = None.
Proof.
  intros HT HC Hshape HN Hlen Hzero.
  assert (Hn : n < N) by (subst N; eapply lookup_lt_Some, Hlen).
  unfold hybrid_forward_checked, broadcast_div_checked.
  pose proof (SequenceMask_shape T N C data vl Hshape HN) as Hmshape.
  pose proof (sum_axis0_lookup T N C _ n HT Hmshape Hn) as Hrow.
  destruct (sample_features_shape T N C _ n Hmshape Hn) as [_ HfC].
  pose proof (vsum_length C _ HfC) as HvC.
  set (xr := vsum C (sample_features n (SequenceMask data vl))) in *.
  match goal with |- ?m = None => destruct m as [out|] eqn:Hout; [|done] end.
  exfalso.
  assert (Hsome : is_Some (mapM (λ p : list A * list A, div_row_checked p.1 p.2)
                                (zip (sum_axis0 (SequenceMask data vl)) (expand_dims vl))))
    by (rewrite Hout; eauto).
  apply mapM_is_Some in Hsome. rewrite Forall_lookup in Hsome.
  specialize (Hsome n (xr, [len])).
  destruct Hsome as [ys Hys].
  { rewrite lookup_zip_with, Hrow. simpl. unfold expand_dims.
    by rewrite list_lookup_fmap, Hlen. }
  simpl in Hys. unfold div_row_checked in Hys.
  destruct xr as [|a xr]; [simpl in HvC; lia|].
  cbn [mapM] in Hys. unfold checked_div in Hys. rewrite Hzero in Hys.
  simpl in Hys. discriminate.
Qed.

(** X7: the pooled vector of a sample is its own.  It is determined by the
    features of the sample along the time axis and by its valid length:
    the same sample with the same valid length gets the same vector in any
    batch, whatever the other samples, their number, or its position. *)
Theorem mean_pool_row_local T N1 N2 C (data1 data2 : list (list (list A)))
        (vl1 vl2 : list A) n1 n2 len :
  0 < T → has_shape3 T N1 C data1 → has_shape3 T N2 C data2 →
  length vl1 = N1 → length vl2 = N2 →
  vl1 !! n1 = Some len → vl2 !! n2 = Some len →
  sample_features n1 data1 = sample_features n2 data2 →
  hybrid_forward data1 vl1 !! n1 = hybrid_forward data2 vl2 !! n2.
Proof.
  intros HT H1 H2 HN1 HN2 Hl1 Hl2 Hfeat.
  rewrite (hybrid_forward_lookup T N1 C data1 vl1 n1 len) by done.
  rewrite (hybrid_forward_lookup T N2 C data2 vl2 n2 len) by done.
  by rewrite Hfeat.
Qed.
End MeanPoolingMore.

(** ** Preprocessing: clipping and vocabulary lookup *)
Section PreprocessMore.
Variable tokenizer : string → list string.
Variable vocab : Vocab.

(** X8: preprocessing is bounded and the same for training and test.  The
    id sequence of a text has the length of its tokenization cut at 500,
    so never more than 500; the label is handed through; [test_preprocess]
    reads the first column of its row, whatever follows it, and returns the
    ids [preprocess] returns for that text; on a row without columns it
    fails. *)
Theorem preprocess_clipped (text : string) (label : Z) (columns : list string) :
  (preprocess tokenizer vocab (text, label)).2 = label ∧
  length (preprocess tokenizer vocab (text, label)).1
  = 500 `min` length (tokenizer text) ∧
  length (preprocess tokenizer vocab (text, label)).1 ≤ 500 ∧
  test_preprocess tokenizer vocab (text :: columns)
  = Some (preprocess tokenizer vocab (text, label)).1 ∧
  test_preprocess tokenizer vocab [] = None.
Proof.
  simpl. rewrite vocab_getitem_length. unfold length_clip. rewrite length_take.
  repeat split; lia.
Qed.

(** X9: the ids follow the tokens.  Position [i < 500] of the output holds
    the vocabulary index of token [i] of the text when the token is in the
    vocabulary and the index of the unknown token when it is not; there is
    no position from 500 on. *)
Theorem preprocess_token_ids (text : string) (label : Z) :
  let ids := (preprocess tokenizer vocab (text, label)).1 in
  (∀ i tok idx, i < 500 → tokenizer text !! i = Some tok →
                token_to_idx vocab !! tok = Some idx → ids !! i = Some idx) ∧
  (∀ i tok, i < 500 → tokenizer text !! i = Some tok →
            token_to_idx vocab !! tok = None → ids !! i = Some (unknown_idx vocab)) ∧
  (∀ i, 500 ≤ i → ids !! i = None).
Proof.
  simpl. unfold vocab_getitem, length_clip. repeat split.
  - intros i tok idx Hi Htok Hidx.
    rewrite list_lookup_fmap, lookup_take_lt, Htok by done. simpl. by rewrite Hidx.
  - intros i tok Hi Htok Hidx.
    rewrite list_lookup_fmap, lookup_take_lt, Htok by done. simpl. by rewrite Hidx.
  - intros i Hi. apply lookup_ge_None. rewrite length_fmap, length_take. lia.
Qed.
End PreprocessMore.

(** ** Padding and sequential batching *)
Section BatchingMore.

Lemma zip_with_take_pad (samples : list (list nat)) (M : nat) :
  zip_with take (length <$> samples)
           ((λ s, s ++ replicate (M - length s) 0) <$> samples)
  = samples.
Proof.
  induction samples as [|s samples IH]; [done|].
  rewrite !fmap_cons. simpl. by rewrite take_app_length, IH.
Qed.

(** X10: padding can be undone.  A training batch carries the labels of its
    samples in order and their true lengths; every row of the id matrix has
    the width of the longest sample; cutting each row at its valid length
    gives the samples back, and what follows the valid length in a row is
    zeros only. *)
Theorem batchify_fn_unpad (samples : list (list nat * Z)) :
  let '((data, lens), labels) := batchify_fn samples in
  labels = snd <$> samples ∧
  lens = (λ x, length x.1) <$> samples ∧
  Forall (λ row, length row = max_list lens) data ∧
  zip_with take lens data = fst <$> samples ∧
  zip_with drop lens data = (λ len, replicate (max_list lens - len) 0) <$> lens.
Proof.
  unfold batchify_fn, Pad, Stack. cbv zeta. cbn [fst snd].
  split; [done|]. split; [by rewrite <- list_fmap_compose|].
  destruct (Pad_shape (fst <$> samples)) as (_ & _ & Hrows).
  split; [exact Hrows|]. split; [apply zip_with_take_pad|].
  generalize (max_list (length <$> samples.*1)). intros M.
  generalize (samples.*1). intros ss.
  induction ss as [|s ss IH]; [done|].
  rewrite !fmap_cons. cbn [zip_with]. by rewrite drop_app_length, IH.
Qed.

Lemma BatchSampler_fill (batch_size : nat) (sampler batch : list nat) :
  length batch < batch_size → batch_size ≤ length batch + length sampler →
  BatchSampler batch_size sampler batch
  = (batch ++ take (batch_size - length batch) sampler)
      :: BatchSampler batch_size (drop (batch_size - length batch) sampler) [].
Proof.
  revert batch. induction sampler as [|i rest IH]; intros batch Hlt Hge.
  { simpl in Hge. lia. }
  cbn [BatchSampler]. rewrite length_app. simpl.
  destruct (length batch + 1 =? batch_size) eqn:Hfull.
  - apply Nat.eqb_eq in Hfull.
    by replace (batch_size - length batch) with 1 by lia.
  - apply Nat.eqb_neq in Hfull.
    rewrite IH by (rewrite ?length_app; simpl in *; lia).
    rewrite length_app. simpl.
    replace (batch_size - length batch) with (S (batch_size - (length batch + 1))) by lia.
    simpl. by rewrite <- app_assoc.
Qed.

Lemma BatchSampler_rest (batch_size : nat) (sampler batch : list nat) :
  length batch + length sampler < batch_size →
  BatchSampler batch_size sampler batch
  = match batch ++ sampler with [] => [] | _ => [batch ++ sampler] end.
Proof.
  revert batch. induction sampler as [|i rest IH]; intros batch Hlt.
  { simpl. rewrite app_nil_r. by destruct batch. }
  cbn [BatchSampler]. rewrite length_app. simpl in *.
  destruct (length batch + 1 =? batch_size) eqn:Hfull.
  { apply Nat.eqb_eq in Hfull. lia. }
  rewrite IH by (rewrite length_app; simpl; lia).
  rewrite <- app_assoc. simpl. by destruct batch.
Qed.

(** Batch [j] of the sequential sampler is the [j]-th run of
    [batch_size] indices. *)
Lemma BatchSampler_lookup (batch_size : nat) (sampler : list nat) (j : nat) :
  0 < batch_size → j * batch_size < length sampler →
  BatchSampler batch_size sampler [] !! j
  = Some (take batch_size (drop (j * batch_size) sampler)).
Proof.
  intros Hbs. revert sampler. induction j as [|j IH]; intros sampler Hj.
  - simpl in *. destruct (decide (batch_size ≤ length sampler)).
    + rewrite BatchSampler_fill by (simpl; lia). simpl. by rewrite Nat.sub_0_r.
    + rewrite BatchSampler_rest by (simpl; lia). simpl.
      destruct sampler; [simpl in Hj; lia|]. simpl. f_equal.
      rewrite take_ge; [done|simpl in *; lia].
  - simpl in Hj. rewrite BatchSampler_fill by (simpl; lia). simpl.
    rewrite Nat.sub_0_r, IH by (rewrite length_drop; lia).
    by rewrite drop_drop.
Qed.

Lemma BatchSampler_length (batch_size : nat) (sampler : list nat) :
  0 < batch_size →
  length (BatchSampler batch_size sampler [])
  = (length sampler + batch_size - 1) / batch_size.
Proof.
  intros Hbs.
  assert (Hgen : ∀ n (l : list nat), length l ≤ n →
    length (BatchSampler batch_size l []) = (length l + batch_size - 1) / batch_size).
  { induction n as [|n IH]; intros l Hl.
    - destruct l; [|simpl in Hl; lia]. simpl.
      by rewrite Nat.div_small by lia.
    - destruct (decide (batch_size ≤ length l)).
      + rewrite BatchSampler_fill by (simpl; lia). simpl.
        rewrite Nat.sub_0_r, IH by (rewrite length_drop; lia).
        rewrite length_drop.
        replace (length l + batch_size - 1)
          with ((length l - batch_size + batch_size - 1) + 1 * batch_size) by lia.
        rewrite Nat.div_add by lia. lia.
      + rewrite BatchSampler_rest by (simpl; lia). simpl.
        destruct l as [|x l].
        * simpl. by rewrite Nat.div_small by lia.
        * simpl in *. apply Nat.div_unique with (r := length l); lia. }
  by apply (Hgen (length sampler)).
Qed.

Lemma omap_take {X Y : Type} (f : X → option Y) (l : list X) (a : nat) :
  Forall (λ x, is_Some (f x)) l → omap f (take a l) = take a (omap f l).
Proof.
  intros Hl. revert a. induction Hl as [|x l [y Hy] _ IH]; intros [|a]; try done.
  simpl. rewrite Hy. simpl. by rewrite IH.
Qed.

Lemma omap_drop {X Y : Type} (f : X → option Y) (l : list X) (b : nat) :
  Forall (λ x, is_Some (f x)) l → omap f (drop b l) = drop b (omap f l).
Proof.
  intros Hl. revert b. induction Hl as [|x l [y Hy] _ IH]; intros [|b]; try done.
  simpl. rewrite Hy. simpl. by rewrite IH.
Qed.

Lemma DataLoader_length {X Y : Type} (dataset : list X) (batch_size : nat)
      (batchify : list X → Y) :
  0 < batch_size →
  length (DataLoader dataset batch_size batchify)
  = (length dataset + batch_size - 1) / batch_size.
Proof.
  intros Hbs. unfold DataLoader.
  by rewrite length_fmap, BatchSampler_length, length_seq.
Qed.

Lemma DataLoader_lookup {X Y : Type} (dataset : list X) (batch_size : nat)
      (batchify : list X → Y) (j : nat) :
  0 < batch_size → j * batch_size < length dataset →
  DataLoader dataset batch_size batchify !! j
  = Some (batchify (take batch_size (drop (j * batch_size) dataset))).
Proof.
  intros Hbs Hj. unfold DataLoader.
  rewrite list_lookup_fmap, BatchSampler_lookup by (rewrite ?length_seq; done).
  simpl. f_equal. f_equal.
  assert (Hall : Forall (λ idx, is_Some (dataset !! idx)) (seq 0 (length dataset))).
  { apply Forall_forall. intros idx Hidx. apply elem_of_seq in Hidx.
    apply lookup_lt_is_Some. lia. }
  rewrite omap_take, omap_drop, omap_lookup_seq; [done|done|].
  by apply Forall_drop.
Qed.

(** X11: the batches of the sequential loader.  With a positive batch
    size, a dataset of [n] samples is loaded in [ceil(n / batch_size)]
    batches, and batch [j] is made of the [batch_size] samples from
    [j * batch_size] on, in dataset order, or of those that are left. *)
Theorem DataLoader_sequential_batches {X Y : Type} (dataset : list X)
        (batch_size : nat) (batchify : list X → Y) :
  0 < batch_size →
  length (DataLoader dataset batch_size batchify)
  = (length dataset + batch_size - 1) / batch_size ∧
  ∀ j, j * batch_size < length dataset →
       DataLoader dataset batch_size batchify !! j
       = Some (batchify (take batch_size (drop (j * batch_size) dataset))).
Proof.
  intros Hbs. split; [by apply DataLoader_length|].
  intros j Hj. by apply DataLoader_lookup.
Qed.
End BatchingMore.

(** ** The network on padded batches *)
Section NetMore.
Context {A : Type} {F : Backend A}.
Variable encoder : list (list A) → list (list (list A)) → list (list (list A)).
Variable sigmoid : A → A.

(** The encoder keeps the time and batch dimensions. *)
Hypothesis encoder_shape : ∀ w x N,
  Forall (λ row, length row = N) x →
  length (encoder w x) = length x ∧ Forall (λ row, length row = N) (encoder w x).

(** X12: one logit per sample.  On a padded batch whose samples all have
    at least one token the network returns a matrix of shape [(N, 1)]:
    one row per sample of the batch, each holding a single logit. *)
Theorem net_call_shape (p : SentimentNet.Params) (samples : list (list nat)) :
  Forall (λ s, s ≠ []) samples →
  has_shape2 (length samples) 1 (net_call encoder p (Pad samples)).
Proof using encoder_shape.
  intros Hne. split; [by apply net_call_length|].
  eapply Forall_impl; [apply net_call_singletons|].
  intros r [x ->]. done.
Qed.

Lemma join_lookup_chunks {X : Type} (outs : list (list X)) (size j r : nat) (o : list X) :
  (∀ j', j' < j → ∃ o', outs !! j' = Some o' ∧ length o' = size) →
  outs !! j = Some o → r < length o →
  mjoin outs !! (j * size + r) = o !! r.
Proof.
  revert outs. induction j as [|j IH]; intros outs Hfull Hj Hr.
  - destruct outs as [|o0 outs]; simplify_eq/=. by rewrite lookup_app_l.
  - destruct outs as [|o0 outs]; [done|]. simpl in Hj.
    destruct (Hfull 0) as (o' & Ho' & Hlen); [lia|]. simplify_eq/=.
    rewrite lookup_app_r by lia.
    replace (length o' + j * length o' + r - length o') with (j * length o' + r) by lia.
    apply IH; [|done|done].
    intros j' Hj'. apply (Hfull (S j')). lia.
Qed.

(** X13: predictions line up with the test rows.  With a positive batch
    size and test comments of at least one token each, row [i] of a
    submission holds the sigmoid of the logit the network returns at
    position [i mod batch_size] of the batch made of the preprocessed test
    rows [(i / batch_size) * batch_size, ...]: the prediction of a row is
    computed from the comment of that row. *)
Theorem predictions_aligned (tokenizer : string → list string) (vocab : Vocab)
        (batch_size : nat) (p : SentimentNet.Params) (test_df : list TestCsvRow)
        (rows : list (SubmissionRow A)) :
  0 < batch_size →
  Forall (λ r, tokenizer (astype_str (test_comment_text r)) ≠ []) test_df →
  submission encoder sigmoid tokenizer vocab batch_size p test_df = Some rows →
  ∀ i row, rows !! i = Some row →
    ∃ logit,
      net_call encoder p
        (Pad (take batch_size
                (drop (i / batch_size * batch_size)
                      ((λ r, vocab_getitem vocab
                               (length_clip (tokenizer (astype_str (test_comment_text r)))))
                         <$> test_df))))
      !! (i mod batch_size) = Some [logit] ∧
      sub_prediction row = sigmoid logit.
Proof using encoder_shape.
  intros Hbs Htok Hsub i row Hrow.
  destruct (submission_ids encoder sigmoid _ _ _ _ _ _ Hsub) as [Hlen _].
  unfold submission in Hsub. rewrite test_dataset_Some in Hsub. simpl in Hsub.
  set (dataset := (λ r, vocab_getitem vocab
                          (length_clip (tokenizer (astype_str (test_comment_text r)))))
                    <$> test_df) in *.
  assert (Hne : Forall (λ s, s ≠ []) dataset).
  { unfold dataset. apply Forall_fmap. eapply Forall_impl; [exact Htok|].
    intros r Hr. simpl in *. intros Hnil. apply (f_equal length) in Hnil.
    rewrite vocab_getitem_length in Hnil. unfold length_clip in Hnil.
    rewrite length_take in Hnil.
    destruct (tokenizer (astype_str (test_comment_text r))); [done|].
    simpl in Hnil. lia. }
  assert (Hn : length dataset = length test_df) by (unfold dataset; by rewrite length_fmap).
  assert (Hi : i < length dataset).
  { rewrite Hn, <- Hlen. eapply lookup_lt_Some, Hrow. }
  rewrite inference_results_join in Hsub.
  set (loader := DataLoader dataset batch_size test_batchify_fn) in *.
  destruct (predictions sigmoid (mjoin (net_call encoder p <$> loader)))
    as [preds|] eqn:Hpreds; [|done].
  simpl in Hsub. unfold from_dict in Hsub. case_bool_decide; [|done].
  injection Hsub as <-.
  apply lookup_zip_with_Some in Hrow as (rid & pred & -> & _ & Hpred). simpl.
  unfold predictions in Hpreds. apply mapM_Some in Hpreds.
  destruct (Forall2_lookup_r _ _ _ _ _ Hpreds Hpred) as (result & Hresult & Hsig).
  pose proof (Nat.div_mod_eq i batch_size) as Hdm.
  assert (Hr : i mod batch_size < batch_size) by (apply Nat.mod_upper_bound; lia).
  set (j := i / batch_size) in *. set (r := i mod batch_size) in *.
  clearbody j r.
  assert (Hieq : i = j * batch_size + r) by lia.
  assert (Hchunk : ∀ j', j' * batch_size < length dataset →
    (net_call encoder p <$> loader) !! j'
    = Some (net_call encoder p
              (Pad (take batch_size (drop (j' * batch_size) dataset)))) ∧
    length (net_call encoder p (Pad (take batch_size (drop (j' * batch_size) dataset))))
    = batch_size `min` (length dataset - j' * batch_size)).
  { intros j' Hj'. split.
    - rewrite list_lookup_fmap. unfold loader.
      by rewrite DataLoader_lookup by done.
    - rewrite (net_call_length encoder encoder_shape)
        by (by apply Forall_take, Forall_drop).
      by rewrite length_take, length_drop. }
  assert (Hjn : j * batch_size < length dataset) by nia.
  destruct (Hchunk j Hjn) as [Hout Houtlen].
  rewrite Hieq in Hresult.
  rewrite (join_lookup_chunks
             (net_call encoder p <$> loader) batch_size j r
             (net_call encoder p
                (Pad (take batch_size (drop (j * batch_size) dataset)))))
    in Hresult; cycle 1.
  { intros j' Hj'. assert (Hj'n : j' * batch_size < length dataset) by nia.
    destruct (Hchunk j' Hj'n) as [Ho Hl]. eexists. split; [exact Ho|].
    rewrite Hl. nia. }
  { exact Hout. }
  { rewrite Houtlen. nia. }
  { pose proof (net_call_singletons encoder p
                  (Pad (take batch_size (drop (j * batch_size) dataset)))) as Hs.
    rewrite Forall_lookup in Hs. destruct (Hs r result Hresult) as [logit Hl].
    subst result. exists logit. split; [exact Hresult|].
    simpl in Hsig. by injection Hsig as <-. }
Qed.
End NetMore.

Section NetPadding.
Context {A : Type} {F : Backend A}.
Variable encoder : list (list A) → list (list (list A)) → list (list (list A)).
(** The width of the encoder output, from its weights and its input width. *)
Variable encoder_dim : list (list A) → nat → nat.

Hypothesis encoder_shape3 : ∀ w x T N C,
  has_shape3 T N C x → has_shape3 T N (encoder_dim w C) (encoder w x).
(** A recurrent encoder read in one direction: the state of a sample at a
    time step is a function of that sample's inputs up to that step. *)
Hypothesis encoder_causal : ∀ w x1 x2 T N C n t,
  has_shape3 T N C x1 → has_shape3 T N C x2 →
  (∀ t', t' ≤ t → x1 !! t' ≫= (λ row, row !! n) = x2 !! t' ≫= (λ row, row !! n)) →
  encoder w x1 !! t ≫= (λ row, row !! n) = encoder w x2 !! t ≫= (λ row, row !! n).

Lemma embedding_shape3 (weight : list (list A)) (data : list (list nat)) T N C :
  weight ≠ [] → Forall (λ v, length v = C) weight →
  length data = T → Forall (λ row, length row = N) data →
  has_shape3 T N C (SentimentNet.embedding weight data).
Proof.
  intros Hw HC HT HN. unfold SentimentNet.embedding. split; [by rewrite length_fmap|].
  apply Forall_fmap. eapply Forall_impl; [exact HN|]. intros row Hrow. simpl.
  split; [by rewrite length_fmap|].
  apply Forall_fmap, Forall_true. intros tok. simpl.
  destruct (lookup_lt_is_Some_2 weight (tok `min` (length weight - 1))) as [v Hv].
  { destruct weight; [done|]. simpl. lia. }
  rewrite Hv. simpl. eapply Forall_lookup_1 in HC; [exact HC|exact Hv].
Qed.

Lemma embedding_lookup (weight : list (list A)) (data : list (list nat)) t n :
  SentimentNet.embedding weight data !! t ≫= (λ row, row !! n)
  = (λ tok, default [] (weight !! (tok `min` (length weight - 1))))
      <$> (data !! t ≫= (λ row, row !! n)).
Proof.
  unfold SentimentNet.embedding. rewrite list_lookup_fmap.
  destruct (data !! t) as [row|]; [|done]. simpl. by rewrite list_lookup_fmap.
Qed.

(** X14: the logits do not see the padding.  With an encoder that is
    causal along the time axis, two token batches of the same shape that
    agree, for every sample, on the positions before its valid length get
    the same output from the network: the value stored in the padding
    positions does not reach the logits. *)
Theorem net_ignores_padding (p : SentimentNet.Params)
        (data1 data2 : list (list nat)) (vl : list A) T N C :
  SentimentNet.embedding_weight p ≠ [] →
  Forall (λ v, length v = C) (SentimentNet.embedding_weight p) →
  length data1 = T → length data2 = T →
  Forall (λ row, length row = N) data1 → Forall (λ row, length row = N) data2 →
  (∀ n len t, vl !! n = Some len → (Z.of_nat t < f_int len)%Z →
     data1 !! t ≫= (λ row, row !! n) = data2 !! t ≫= (λ row, row !! n)) →
  SentimentNet.hybrid_forward encoder p data1 vl
  = SentimentNet.hybrid_forward encoder p data2 vl.
Proof using encoder_shape3 encoder_causal.
  intros Hw HC HT1 HT2 HN1 HN2 Hagree.
  pose proof (embedding_shape3 _ _ T N C Hw HC HT1 HN1) as He1.
  pose proof (embedding_shape3 _ _ T N C Hw HC HT2 HN2) as He2.
  unfold SentimentNet.hybrid_forward, MeanPoolingLayer.hybrid_forward.
  rewrite (SequenceMask_ext T N (encoder_dim (SentimentNet.encoder_weight p) C)
             (encoder (SentimentNet.encoder_weight p)
                      (SentimentNet.embedding (SentimentNet.embedding_weight p) data1))
             (encoder (SentimentNet.encoder_weight p)
                      (SentimentNet.embedding (SentimentNet.embedding_weight p) data2))
             vl); [done| | |].
  - by apply encoder_shape3.
  - by apply encoder_shape3.
  - intros n len t Hlen Ht.
    apply (encoder_causal _ _ _ T N C); [done|done|].
    intros t' Ht'. rewrite !embedding_lookup.
    by rewrite (Hagree n len t' Hlen) by lia.
Qed.
End NetPadding.

Section NetPooling.
Context {A : Type} {F : Backend A}.
Variable encoder : list (list A) → list (list (list A)) → list (list (list A)).
Variable encoder_dim : list (list A) → nat → nat.

Hypothesis encoder_shape3 : ∀ w x T N C,
  has_shape3 T N C x → has_shape3 T N (encoder_dim w C) (encoder w x).
Hypothesis add_zero : ∀ x : A, f_add x f_zero = x.
(** A length survives the conversion to a float and back. *)
Hypothesis int_float : ∀ n : nat, f_int (f_float n) = Z.of_nat n.

Lemma omap_lookup_total {X Y : Type} (f : X → option Y) (l : list X) (i : nat) :
  Forall (λ x, is_Some (f x)) l → omap f l !! i = l !! i ≫= f.
Proof.
  intros Hl. revert i. induction Hl as [|x l [y Hy] _ IH]; intros i; [done|].
  cbn [omap list_omap]. rewrite Hy. destruct i as [|i]; simpl; [done|]. apply IH.
Qed.

(** Column [i] of the transposed matrix is row [i] of the matrix. *)
Lemma transpose_column {X : Type} (m : list (list X)) (M i : nat) (r : list X) :
  Forall (λ row, length row = M) m → m !! i = Some r →
  omap (λ row, row !! i) (transpose m) = r.
Proof.
  intros Hrows Hr.
  assert (Hs : shape1 m = M).
  { destruct m as [|r0 m']; [done|]. simpl. by apply Forall_cons in Hrows as [? _]. }
  assert (HrM : length r = M) by (eapply Forall_lookup_1 in Hrows; [exact Hrows|exact Hr]).
  assert (Hcol : ∀ t, t < M → (omap (λ row : list X, row !! t) m) !! i = r !! t).
  { intros t Ht. rewrite omap_lookup_total, Hr; [done|].
    eapply Forall_impl; [exact Hrows|]. intros row Hrow. simpl in Hrow.
    apply lookup_lt_is_Some. lia. }
  unfold transpose. rewrite Hs. apply list_eq. intros t.
  rewrite omap_lookup_total.
  - rewrite list_lookup_fmap. destruct (decide (t < M)) as [Ht|Ht].
    + rewrite lookup_seq_lt by done. simpl. by apply Hcol.
    + rewrite lookup_seq_ge by lia. simpl. symmetry. apply lookup_ge_None. lia.
  - apply Forall_fmap, Forall_forall. intros t' Ht'. simpl.
    apply elem_of_seq in Ht'. rewrite Hcol by lia.
    apply lookup_lt_is_Some. lia.
Qed.

Lemma sample_features_fmap {X Y : Type} (g : X → Y) (x : list (list X)) (i : nat) :
  omap (λ row : list Y, row !! i) ((λ row, g <$> row) <$> x)
  = g <$> omap (λ row : list X, row !! i) x.
Proof.
  induction x as [|row x IH]; [done|].
  rewrite fmap_cons. cbn [omap list_omap]. rewrite list_lookup_fmap.
  destruct (row !! i); simpl; by rewrite IH.
Qed.

(** X16: the pooled vector of a sample averages over its own tokens.  In
    a padded batch of samples with at least one token each, the encoder
    input of sample [i] is the embedding of its tokens followed by the
    embedding of the padding id, and its logit is the output layer applied
    to the sum of its first [len] encoder states divided by [len], where
    [len] is the number of its tokens: the valid lengths handed to the
    network line up with the rows of the batch. *)
Theorem net_call_pools_own_tokens (p : SentimentNet.Params)
        (samples : list (list nat)) (C i : nat) (s : list nat) :
  SentimentNet.embedding_weight p ≠ [] →
  Forall (λ v, length v = C) (SentimentNet.embedding_weight p) →
  Forall (λ s, s ≠ []) samples →
  samples !! i = Some s →
  let ew := SentimentNet.embedding_weight p in
  let inputs := SentimentNet.embedding ew (transpose (Pad samples).1) in
  let encoded := encoder (SentimentNet.encoder_weight p) inputs in
  sample_features i inputs
  = (λ tok, default [] (ew !! (tok `min` (length ew - 1))))
      <$> (s ++ replicate (max_list (length <$> samples) - length s) 0) ∧
  net_call encoder p (Pad samples) !! i
  = Some [f_add
            (SentimentNet.dot (SentimentNet.output_weight p)
               ((λ x, f_div x (f_float (length s)))
                  <$> MeanPoolingLayer.vsum
                        (encoder_dim (SentimentNet.encoder_weight p) C)
                        (take (length s) (sample_features i encoded))))
            (SentimentNet.output_bias p)].
Proof using encoder_shape3 add_zero int_float.
  intros Hw HC Hne Hs. cbv zeta.
  destruct (Pad_shape samples) as (Hd & Hl & Hrows).
  set (T := max_list (length <$> samples)) in *.
  assert (Hrow : (Pad samples).1 !! i = Some (s ++ replicate (T - length s) 0)).
  { unfold Pad. simpl. by rewrite list_lookup_fmap, Hs. }
  assert (Hlen : (Pad samples).2 !! i = Some (length s)).
  { unfold Pad. simpl. by rewrite list_lookup_fmap, Hs. }
  assert (Hdne : (Pad samples).1 ≠ []).
  { intros Hnil. rewrite Hnil in Hrow. done. }
  assert (HT : 0 < T).
  { eapply Forall_lookup_1 in Hne; [|exact Hs]. simpl in Hne.
    assert (length s ≤ T).
    { apply max_list_elem_of_le, list_elem_of_fmap. exists s. split; [done|].
      eapply list_elem_of_lookup_2, Hs. }
    destruct s; [done|]. simpl in *. lia. }
  destruct (transpose_shape (Pad samples).1 T Hrows Hdne) as [HtT HtN].
  pose proof (embedding_shape3 (SentimentNet.embedding_weight p) _ T _ C Hw HC HtT HtN)
    as Hin.
  pose proof (encoder_shape3 (SentimentNet.encoder_weight p) _ _ _ _ Hin) as Henc.
  split.
  - unfold sample_features, SentimentNet.embedding.
    rewrite sample_features_fmap. f_equal.
    by apply (transpose_column _ T).
  - unfold net_call. destruct (Pad samples) as [data lens] eqn:HPad. simpl in *.
    unfold SentimentNet.hybrid_forward, SentimentNet.output, SentimentNet.Dense,
      SentimentNet.Dropout.
    rewrite list_lookup_fmap.
    rewrite (hybrid_forward_lookup T (length data)
               (encoder_dim (SentimentNet.encoder_weight p) C) _ _ i
               (f_float (length s)));
      [|done|done|by rewrite length_fmap; lia|by rewrite list_lookup_fmap, Hlen].
    simpl. do 4 f_equal. unfold MeanPoolingLayer.vsum.
    rewrite foldl_mask_take.
    + by rewrite int_float, Nat2Z.id.
    + exact add_zero.
    + rewrite length_replicate.
      assert (Hi : i < length data) by (eapply lookup_lt_Some, Hrow).
      by destruct (sample_features_shape T (length data) _ _ i Henc Hi) as [_ ?].
Qed.
End NetPooling.

(** ** The further properties on small inputs *)

Lemma train_epoch_log_lines_witness :
  ∃ lines,
    printed unit (train_epoch unit demo_train_step 2 demo_train_dataloader
                              demo_log_state 3)
    = printed unit demo_log_state ++ lines ∧
    length lines = 2 ∧
    line_batch <$> lines = [2; 4] ∧
    Forall (λ l, line_epoch l = 3 ∧ line_total l = 5) lines.
Proof.
  apply (train_epoch_log_lines unit demo_train_step 2 demo_train_dataloader
                               demo_log_state 3).
  lia.
Defined.

Lemma trailing_batches_unreported_witness :
  printed unit (run_batches unit demo_train_step 2 0 5 demo_log_state 0
                            (replicate 5 demo_train_batch))
  = printed unit (run_batches unit demo_train_step 2 0 5 demo_log_state 0
                              (replicate 4 demo_train_batch)).
Proof.
  apply (trailing_batches_unreported unit demo_train_step 2 0 5
                                     (replicate 5 demo_train_batch) demo_log_state).
  lia.
Defined.

Lemma run_batches_log_point_witness :
  let st' := run_batches unit demo_train_step 2 0 2 demo_log_state 0
                         [demo_train_batch; demo_train_batch] in
  line_avg_loss <$> printed unit st' = [f_div (0 + 6 + 6)%Q (f_float (0 + (3 + (3 + 0))))] ∧
  log_interval_L (stats unit st') = 0%Q ∧
  log_interval_sent_num (stats unit st') = 0 ∧
  log_interval_wc (stats unit st') = 0.
Proof.
  destruct (run_batches_log_point unit demo_train_step 2 0 2
              [demo_train_batch] demo_train_batch demo_log_state 0)
    as (Hp & HL & Hs & Hw).
  - intros m Hm. simpl in Hm. assert (m = 0) as -> by lia. vm_compute. discriminate.
  - reflexivity.
  - cbv zeta. split; [|split; [exact HL|split; [exact Hs|exact Hw]]].
    change ([demo_train_batch; demo_train_batch])
      with ([demo_train_batch] ++ [demo_train_batch]).
    rewrite Hp. reflexivity.
Defined.

Lemma mean_pool_zero_length_reported_witness :
  MeanPoolingLayer.hybrid_forward_checked demo_features [2; 0]%Q = None.
Proof.
  apply (mean_pool_zero_length_reported 3 2 2 demo_features [2; 0]%Q 1 0%Q).
  - lia.
  - lia.
  - shape_tac.
  - reflexivity.
  - reflexivity.
  - reflexivity.
Defined.

Lemma mean_pool_row_local_witness :
  MeanPoolingLayer.hybrid_forward demo_features [2; 3]%Q !! 1
  = MeanPoolingLayer.hybrid_forward demo_single_features [3]%Q !! 0.
Proof.
  apply (mean_pool_row_local 3 2 1 2 demo_features demo_single_features
                             [2; 3]%Q [3]%Q 1 0 3%Q).
  - lia.
  - shape_tac.
  - shape_tac.
  - reflexivity.
  - reflexivity.
  - reflexivity.
  - reflexivity.
  - reflexivity.
Defined.

Lemma DataLoader_sequential_batches_witness :
  length (DataLoader [[1; 2; 3; 4]; [0]; [3; 1]] 2 test_batchify_fn) = (3 + 2 - 1) / 2 ∧
  ∀ j, j * 2 < 3 →
       DataLoader [[1; 2; 3; 4]; [0]; [3; 1]] 2 test_batchify_fn !! j
       = Some (test_batchify_fn (take 2 (drop (j * 2) [[1; 2; 3; 4]; [0]; [3; 1]]))).
Proof.
  apply (DataLoader_sequential_batches [[1; 2; 3; 4]; [0]; [3; 1]] 2 test_batchify_fn).
  lia.
Defined.

Lemma net_call_shape_witness :
  has_shape2 2 1 (net_call demo_encoder demo_params (Pad [[1; 2; 3; 4]; [3]])).
Proof.
  apply (net_call_shape demo_encoder (λ w x N Hx, conj eq_refl Hx)
                        demo_params [[1; 2; 3; 4]; [3]]).
  repeat constructor; discriminate.
Defined.

Lemma predictions_aligned_witness :
  ∃ logit,
    net_call demo_encoder demo_params
      (Pad (take 2 (drop (2 / 2 * 2)
                         ((λ r, vocab_getitem demo_vocab
                                  (length_clip (demo_tokenizer
                                                  (astype_str (test_comment_text r)))))
                            <$> demo_test_df))))
    !! (2 mod 2) = Some [logit] ∧
    (64 # 192)%Q = demo_squash logit.
Proof.
  apply (predictions_aligned demo_encoder demo_squash (λ w x N Hx, conj eq_refl Hx)
           demo_tokenizer demo_vocab 2 demo_params demo_test_df
           [ {| sub_id := 7000000; sub_prediction := 1024 # 3072 |};
             {| sub_id := 7000001; sub_prediction := 8 # 12 |};
             {| sub_id := 7000002; sub_prediction := 64 # 192 |} ]
           ltac:(lia)
           ltac:(repeat constructor; vm_compute; discriminate)
           ltac:(vm_compute; reflexivity)
           2 {| sub_id := 7000002; sub_prediction := 64 # 192 |} eq_refl).
Defined.

Lemma net_ignores_padding_witness :
  SentimentNet.hybrid_forward demo_encoder demo_params demo_token_batch [3; 1]%Q
  = SentimentNet.hybrid_forward demo_encoder demo_params demo_token_batch_repadded [3; 1]%Q.
Proof.
  apply (net_ignores_padding demo_encoder (λ w C, C)
           (λ w x T N C Hx, Hx)
           (λ w x1 x2 T N C n t H1 H2 Hpre, Hpre t (le_n t))
           demo_params demo_token_batch demo_token_batch_repadded [3; 1]%Q 3 2 2).
  - discriminate.
  - repeat constructor.
  - reflexivity.
  - reflexivity.
  - repeat constructor.
  - repeat constructor.
  - intros [|[|n]] len t Hlen Ht; simpl in Hlen; [| |discriminate];
      injection Hlen as <-; destruct t as [|[|[|t]]]; try reflexivity;
      vm_compute in Ht; discriminate.
Defined.

(** Five epochs of thirteen batches with the log interval 10, in the
    proportions of the notebook's run: one line per epoch, for batch 10. *)
Lemma train_log_witness :
  let log := printed unit (train unit demo_train_step 5 10 demo_long_dataloader tt) in
  line_epoch <$> log = [0; 1; 2; 3; 4] ∧
  line_batch <$> log = [10; 10; 10; 10; 10] ∧
  line_total <$> log = [13; 13; 13; 13; 13].
Proof.
  apply (train_log unit demo_train_step 5 10 demo_long_dataloader tt).
  lia.
Defined.

Lemma Q_int_float (n : nat) : Q_int (Q_float n) = Z.of_nat n.
Proof. unfold Q_int, Q_float. simpl. apply Z.quot_1_r. Qed.

Lemma net_call_pools_own_tokens_witness :
  let ew := SentimentNet.embedding_weight demo_params in
  let inputs := SentimentNet.embedding ew (transpose (Pad [[1; 2; 3; 4]; [3]]).1) in
  let encoded := demo_encoder (SentimentNet.encoder_weight demo_params) inputs in
  sample_features 1 inputs
  = (λ tok, default [] (ew !! (tok `min` (length ew - 1))))
      <$> ([3] ++ replicate (max_list (length <$> [[1; 2; 3; 4]; [3]]) - length [3]) 0) ∧
  net_call demo_encoder demo_params (Pad [[1; 2; 3; 4]; [3]]) !! 1
  = Some [f_add
            (SentimentNet.dot (SentimentNet.output_weight demo_params)
               ((λ x, f_div x (f_float (length [3])))
                  <$> MeanPoolingLayer.vsum 2
                        (take (length [3]) (sample_features 1 encoded))))
            (SentimentNet.output_bias demo_params)].
Proof.
  apply (@net_call_pools_own_tokens Q Q_backend demo_encoder (λ w C, C)
           (λ w x T N C Hx, Hx) Q_add_zero Q_int_float
           demo_params [[1; 2; 3; 4]; [3]] 2 1 [3]).
  - discriminate.
  - repeat constructor.
  - repeat constructor; discriminate.
  - reflexivity.
Defined.
